(** * Statistics aggregation of scripts/pipeline.py

    A shallow embedding of [Detection], [DetectionList] and
    [FeaturePipeline.process_directory] / [process_image].

    Modelling choices:
    - keypoint responses (Python floats) are exact real numbers [R]; the
      rounding of [np.mean] / [np.std] is not modelled there, so facts about
      [r_mean] / [r_std] hold of the exact values; a separate float64 model
      of [np.mean]'s summation ([np_mean64]) shows where the order of the
      responses matters;
    - a method that may raise returns [exc + A] ([inl] = the exception);
    - a mutating method ([DetectionList.add]) returns the post-state of
      [self] together with the exception it raised, if any;
    - the traversal runs in a state-and-error monad whose state is the trace
      of observable events (files opened, lines written, console output,
      detector invocations). *)

From Stdlib Require Import List String Ascii Arith Lia Bool Permutation.
From Stdlib Require Import Reals Lra.
From Stdlib Require DecimalString DecimalNat.
From Stdlib Require Floats Uint63.
Import ListNotations.
Open Scope string_scope.
Open Scope R_scope.

(** ** Python exceptions that can occur in this code *)
Inductive exc : Type :=
| AssertionError
| ValueError
| KeyError.

(** ** Python builtins used by the formatter *)

(** [min(xs)]: CPython keeps the current item and replaces it by a later one
    only when the later one compares strictly smaller; an empty list raises
    [ValueError]. *)
Definition py_min (xs : list R) : exc + R :=
  match xs with
  | [] => inl ValueError
  | x :: rest => inr (fold_left (fun acc y => if Rlt_dec y acc then y else acc) rest x)
  end.

(** [max(xs)]: replaces the current item by a later one only when it is
    strictly greater. *)
Definition py_max (xs : list R) : exc + R :=
  match xs with
  | [] => inl ValueError
  | x :: rest => inr (fold_left (fun acc y => if Rlt_dec acc y then y else acc) rest x)
  end.

Definition sum_list (xs : list R) : R := fold_right Rplus 0 xs.

(** [np.mean(a)] = [umr_sum(a) / count]. It is only reached on non-empty
    lists in this program (the preceding [min] raises on empty ones). *)
Definition np_mean (xs : list R) : R := sum_list xs / INR (List.length xs).

(** numpy's [_var(a, ddof)]: deviations from the mean, squared, summed and
    divided by [count - ddof]. *)
Definition np_var (ddof : nat) (xs : list R) : R :=
  let arrmean := np_mean xs in
  sum_list (map (fun x => (x - arrmean) * (x - arrmean)) xs) / INR (List.length xs - ddof)%nat.

(** [np.std(a)] uses the default [ddof=0]. *)
Definition np_std (xs : list R) : R := sqrt (np_var 0 xs).

(** ** CSV rows *)

(** The eight columns of [csv_header()]; the textual rendering of the
    f-string is not modelled, only the value of each column. *)
Record row : Type := mk_row {
  row_path : string;
  row_detector : string;
  d_num : nat;
  f_mean : R;
  r_min : R;
  r_max : R;
  r_mean : R;
  r_std : R
}.

(** The literal [f'{path},{name},0,0,0,0,0,0\n'] *)
Definition zero_row (path name : string) : row :=
  mk_row path name 0%nat 0 0 0 0 0.

(** Sequencing of computations that may raise. *)
Definition exc_bind {A B} (m : exc + A) (f : A -> exc + B) : exc + B :=
  match m with
  | inl e => inl e
  | inr a => f a
  end.
Notation "x <-? m ;; k" := (exc_bind m (fun x => k)) (at level 60, m at next level, right associativity).

(** ** class Detection *)
Record Detection : Type := mk_detection {
  det_path : string;
  det_detector_name : string;
  det_responses : list R
}.

(** [Detection.csv_row] *)
Definition detection_csv_row (d : Detection) : exc + row :=
  let rs := det_responses d in
  if Nat.ltb 0 (List.length rs) then
    let d_num := 1%nat in
    let f_mean := INR (List.length rs) in
    r_min <-? py_min rs ;;
    r_max <-? py_max rs ;;
    let r_mean := np_mean rs in
    let r_std := np_std rs in
    inr (mk_row (det_path d) (det_detector_name d) d_num f_mean r_min r_max r_mean r_std)
  else inr (zero_row (det_path d) (det_detector_name d)).

(** ** Paths *)

(** [os.path.join(a, b)] on POSIX for a relative [b]: a separator is
    inserted unless [a] is empty or already ends with ['/']. *)
Definition ends_with_char (c : ascii) (s : string) : bool :=
  match String.length s with
  | O => false
  | S n => match get n s with Some c' => Ascii.eqb c c' | None => false end
  end.

Definition path_join (a b : string) : string :=
  if String.eqb a "" then b
  else if ends_with_char "/"%char a then a ++ b
  else a ++ "/" ++ b.

(** ** class DetectionList *)
Record DetectionList : Type := mk_dlist {
  dl_path : string;
  dl_detector_name : string;
  dl_responses : list R;
  num_detections : nat
}.

(** [DetectionList.__init__(path, detector_name)] *)
Definition new_dlist (path detector_name : string) : DetectionList :=
  mk_dlist (path_join path "**") detector_name [] 0%nat.

(** The argument of [add]: [Detection | DetectionList]. *)
Inductive item : Type :=
| IDet (d : Detection)
| IDList (l : DetectionList).

Definition item_detector_name (i : item) : string :=
  match i with IDet d => det_detector_name d | IDList l => dl_detector_name l end.

Definition item_responses (i : item) : list R :=
  match i with IDet d => det_responses d | IDList l => dl_responses l end.

(** [DetectionList.add(detection)]: the state of [self] after the call and
    the exception raised, if any. The assertion runs before any mutation. *)
Definition add (self : DetectionList) (detection : item) : DetectionList * option exc :=
  if negb (String.eqb (item_detector_name detection) (dl_detector_name self))
  then (self, Some AssertionError)
  else
    let responses := (dl_responses self ++ item_responses detection)%list in
    let num :=
      match detection with
      | IDList l => (num_detections self + num_detections l)%nat
      | IDet _ => (num_detections self + 1)%nat
      end in
    (mk_dlist (dl_path self) (dl_detector_name self) responses num, None).

(** [DetectionList.csv_row] *)
Definition dlist_csv_row (l : DetectionList) : exc + row :=
  let rs := dl_responses l in
  if Nat.ltb 0 (num_detections l) then
    let d_num := num_detections l in
    let f_mean := INR (List.length rs) / INR (num_detections l) in
    r_min <-? py_min rs ;;
    r_max <-? py_max rs ;;
    let r_mean := np_mean rs in
    let r_std := np_std rs in
    inr (mk_row (dl_path l) (dl_detector_name l) d_num f_mean r_min r_max r_mean r_std)
  else inr (zero_row (dl_path l) (dl_detector_name l)).

(** Either formatter, on the object it belongs to. *)
Definition item_csv_row (i : item) : exc + row :=
  match i with IDet d => detection_csv_row d | IDList l => dlist_csv_row l end.

(** The detection count an object stands for: one for a [Detection]. *)
Definition item_count (i : item) : nat :=
  match i with IDet _ => 1%nat | IDList l => num_detections l end.

(** ** The traversal: [FeaturePipeline] *)

(** A directory entry as [os.scandir] reports it, in listing order. *)
#[local] Unset Elimination Schemes.
Inductive fs_entry : Type :=
| FsFile (name : string)
| FsDir (name : string) (entries : list fs_entry)
| FsOther (name : string).
#[local] Set Elimination Schemes.

(** A line of a [stats.csv] file. *)
Inductive line : Type :=
| LHeader
| LRow (r : row).

(** Observable events, in the order they happen. *)
Inductive event : Type :=
| EOpen (file : string)                       (* open(file, 'w') *)
| EWrite (file : string) (l : line)           (* stats_file.write(...) *)
| EPrint (msg : string)                       (* print(...) *)
| EDetect (detector_name image_path : string) (* detector.detect(image, None) *)
| EAnnotate (detector_name image_path : string). (* cv2.imwrite of the drawing *)

(** State and exceptions: the trace so far is the state. *)
Definition M (A : Type) : Type := list event -> list event * (exc + A).

Definition ret {A} (a : A) : M A := fun s => (s, inr a).
Definition raise {A} (e : exc) : M A := fun s => (s, inl e).
Definition bind {A B} (m : M A) (f : A -> M B) : M B :=
  fun s => match m s with
           | (s', inl e) => (s', inl e)
           | (s', inr a) => f a s'
           end.
Definition emit (e : event) : M unit := fun s => ((s ++ [e])%list, inr tt).
Definition lift {A} (r : exc + A) : M A := fun s => (s, r).

Notation "x <- m ;; k" := (bind m (fun x => k)) (at level 60, m at next level, right associativity).
Notation "m ;;; k" := (bind m (fun _ => k)) (at level 60, right associativity).

(** [str.lower()] on ASCII letters. *)
Definition lower_ascii (c : ascii) : ascii :=
  let n := nat_of_ascii c in
  if (65 <=? n)%nat && (n <=? 90)%nat then ascii_of_nat (n + 32) else c.

Fixpoint lower (s : string) : string :=
  match s with
  | EmptyString => EmptyString
  | String c rest => String (lower_ascii c) (lower rest)
  end.

(** [str.endswith(suffix)] *)
Definition endswith (s suffix : string) : bool :=
  let n := String.length s in
  let m := String.length suffix in
  (m <=? n)%nat && String.eqb (substring (n - m) m s) suffix.

(** The per-detector accumulators: a Python dict in insertion order. *)
Definition dict := list (string * DetectionList).

(** [d[k] = v]: replaces in place, or appends a new key. *)
Fixpoint dict_set (d : dict) (k : string) (v : DetectionList) : dict :=
  match d with
  | [] => [(k, v)]
  | (k', v') :: rest =>
      if String.eqb k k' then (k, v) :: rest else (k', v') :: dict_set rest k v
  end.

(** [d[k]]; a missing key raises [KeyError]. *)
Fixpoint dict_get (d : dict) (k : string) : exc + DetectionList :=
  match d with
  | [] => inl KeyError
  | (k', v) :: rest => if String.eqb k k' then inr v else dict_get rest k
  end.

(** [d[k].add(x)]: the mutated accumulator is stored back before an
    exception propagates (it is unchanged when [add] raises). *)
Definition dict_add (d : dict) (k : string) (x : item) : exc + dict :=
  v <-? dict_get d k ;;
  match add v x with
  | (v', None) => inr (dict_set d k v')
  | (_, Some e) => inl e
  end.

Section Pipeline.

(** The image source and the configured detectors (external collaborators). *)
Variable image : Type.
(** [cv2.imread(path, cv2.IMREAD_GRAYSCALE)]; [None] when it cannot be decoded. *)
Variable imread : string -> option image.

Record detector : Type := mk_detector {
  (** [detector.__class__.__name__] *)
  detector_class_name : string;
  (** the responses of [detector.detect(image, None)], in keypoint order *)
  detect : image -> list R
}.

Variable detectors : list detector.

(** [FeaturePipeline.process_image] *)
(** The detector loop of [process_image]: [for detector in self.detectors],
    appending each [Detection] to [detections]. *)
Fixpoint run_detectors (ds : list detector) (img : image) (image_path : string)
    (annotate : bool) (acc : list Detection) : M (list Detection) :=
  match ds with
  | [] => ret acc
  | dt :: rest =>
      let detector_name := detector_class_name dt in
      emit (EDetect detector_name image_path) ;;;
      let acc' := (acc ++ [mk_detection image_path detector_name (detect dt img)])%list in
      (if annotate then emit (EAnnotate detector_name image_path) else ret tt) ;;;
      run_detectors rest img image_path annotate acc'
  end.

Definition process_image (image_path : string) (annotate : bool) : M (list Detection) :=
  emit (EPrint ("Open " ++ image_path)) ;;;
  match imread image_path with
  | None =>
      emit (EPrint ("Failed to load image: " ++ image_path)) ;;;
      ret []
  | Some img => run_detectors detectors img image_path annotate []
  end.

(** The accumulators of a fresh directory scope. *)
Definition init_lists (path : string) : dict :=
  fold_left (fun d dt => dict_set d (detector_class_name dt)
                           (new_dlist path (detector_class_name dt)))
            detectors [].

(** [for detection in detections: write its row; add it to its list] *)
Fixpoint write_and_add (stats : string) (dls : dict) (ds : list Detection) : M dict :=
  match ds with
  | [] => ret dls
  | d :: rest =>
      r <- lift (detection_csv_row d) ;;
      emit (EWrite stats (LRow r)) ;;;
      dls' <- lift (dict_add dls (det_detector_name d) (IDet d)) ;;
      write_and_add stats dls' rest
  end.

(** [for detector_name, detection_list in sub.items(): dls[detector_name].add(...)] *)
Fixpoint add_sub_lists (dls : dict) (sub : dict) : M dict :=
  match sub with
  | [] => ret dls
  | (k, l) :: rest =>
      dls' <- lift (dict_add dls k (IDList l)) ;;
      add_sub_lists dls' rest
  end.

(** [for detector_name, detection_list in detection_lists.items(): write its row] *)
Fixpoint write_aggregates (stats : string) (dls : dict) : M unit :=
  match dls with
  | [] => ret tt
  | (_, l) :: rest =>
      r <- lift (dlist_csv_row l) ;;
      emit (EWrite stats (LRow r)) ;;;
      write_aggregates stats rest
  end.

Variable recurse annotate : bool.

(** The entry loop of [process_directory]: [for entry in entries], each
    entry handled by [step]; an exception ends the loop. *)
Fixpoint entry_loop
    (step : string -> string -> dict -> fs_entry -> M dict)
    (path stats : string) (dls : dict) (es : list fs_entry) : M dict :=
  match es with
  | [] => ret dls
  | e :: rest =>
      dls' <- step path stats dls e ;;
      entry_loop step path stats dls' rest
  end.

(** The body of [process_directory]: open [stats.csv], write the header,
    create one accumulator per detector, run the entry loop over the
    listing in order, write the aggregate rows, return the accumulators. *)
Definition run_directory
    (step : string -> string -> dict -> fs_entry -> M dict)
    (path : string) (entries : list fs_entry) : M dict :=
  let stats := path_join path "stats.csv" in
  emit (EOpen stats) ;;;
  emit (EWrite stats LHeader) ;;;
  dls <- entry_loop step path stats (init_lists path) entries ;;
  write_aggregates stats dls ;;;
  ret dls.

(** One iteration of the entry loop of [process_directory] (directory
    [path], its stats file [stats]); a subdirectory is processed by a
    recursive [process_directory] call. *)
Fixpoint process_entry (path stats : string) (dls : dict) (e : fs_entry) {struct e} : M dict :=
  match e with
  | FsFile name =>
      if endswith (lower name) ".jpg" then
        detections <- process_image (path_join path name) annotate ;;
        write_and_add stats dls detections
      else ret dls
  | FsDir name children =>
      if recurse then
        sub <- run_directory process_entry (path_join path name) children ;;
        add_sub_lists dls sub
      else ret dls
  | FsOther _ => ret dls
  end.

(** [FeaturePipeline.process_directory(path, recurse, annotate)] on a
    directory whose listing is [entries]. *)
Definition process_directory (path : string) (entries : list fs_entry) : M dict :=
  run_directory process_entry path entries.

(** The decodable images an entry contributes, in traversal order: a
    [.jpg] file that [imread] decodes, and (when recursing) the images of a
    subdirectory's listing. *)
Fixpoint entry_images (path : string) (e : fs_entry) : list image :=
  match e with
  | FsFile name =>
      if endswith (lower name) ".jpg" then
        match imread (path_join path name) with Some img => [img] | None => [] end
      else []
  | FsDir name children =>
      if recurse then flat_map (entry_images (path_join path name)) children else []
  | FsOther _ => []
  end.

(** Per-detector accumulators of the directory [path], one per configured
    detector in configuration order, all with the same count. *)
Definition scope_dict (path : string) (resp : detector -> list R) (count : nat) : dict :=
  map (fun dt => (detector_class_name dt,
                  mk_dlist (path_join path "**") (detector_class_name dt) (resp dt) count))
      detectors.

End Pipeline.

(** ** Nodes reachable by valid merges *)

(** Accumulators obtainable from [DetectionList.__init__] by successful
    [add] calls with [Detection]s and with other reachable accumulators. *)
Inductive reachable : DetectionList -> Prop :=
| reach_new (path name : string) : reachable (new_dlist path name)
| reach_add_det (l l' : DetectionList) (d : Detection) :
    reachable l -> add l (IDet d) = (l', None) -> reachable l'
| reach_add_list (l m l' : DetectionList) :
    reachable l -> reachable m -> add l (IDList m) = (l', None) -> reachable l'.

(** ** Merge trees *)

(** A way of combining [Detection]s and [DetectionList]s with [add]: a leaf
    is an existing object; a group is a fresh [DetectionList(path, name)]
    into which the groups' children are added, left to right. *)
#[local] Unset Elimination Schemes.
Inductive merge_tree : Type :=
| MLeaf (i : item)
| MGroup (path : string) (children : list merge_tree).
#[local] Set Elimination Schemes.

Fixpoint tree_leaves (t : merge_tree) : list item :=
  match t with
  | MLeaf i => [i]
  | MGroup _ ts => flat_map tree_leaves ts
  end.

(** Adds each child's object, evaluated by [eval], to [acc] in order; the
    first exception stops the loop. *)
Fixpoint add_children (eval : merge_tree -> exc + item)
    (acc : DetectionList) (ts : list merge_tree) : exc + item :=
  match ts with
  | [] => inr (IDList acc)
  | t :: rest =>
      i <-? eval t ;;
      match add acc i with
      | (acc', None) => add_children eval acc' rest
      | (_, Some e) => inl e
      end
  end.

(** Runs the [add] calls of a tree for detector [name]. *)
Fixpoint eval_tree (name : string) (t : merge_tree) : exc + item :=
  match t with
  | MLeaf i => inr i
  | MGroup path ts => add_children (eval_tree name) (new_dlist path name) ts
  end.

Definition total_count (xs : list item) : nat :=
  fold_right (fun i n => (item_count i + n)%nat) 0%nat xs.

(** ** Theorems *)

Lemma add_name_eq (self : DetectionList) (x : item) :
  item_detector_name x = dl_detector_name self ->
  add self x =
    (mk_dlist (dl_path self) (dl_detector_name self)
       (dl_responses self ++ item_responses x)
       (num_detections self + item_count x), None).
Proof.
  intros H. unfold add. rewrite H, String.eqb_refl. simpl.
  destruct x; reflexivity.
Qed.

Lemma add_name_neq (self : DetectionList) (x : item) :
  item_detector_name x <> dl_detector_name self ->
  add self x = (self, Some AssertionError).
Proof.
  intros H. unfold add. apply String.eqb_neq in H. rewrite H. reflexivity.
Qed.

(** C1 (code bug): formatting an empty sample sequence. [Detection.csv_row]
    guards on the responses and returns the all-zero row, and so does
    [DetectionList.csv_row] when its count is zero; but [DetectionList.csv_row]
    guards on [num_detections], so an accumulator with a positive count and
    no responses reaches [min([])] and raises [ValueError]. *)
Theorem csv_row_empty_samples (path name : string) (count : nat) :
  detection_csv_row (mk_detection path name []) = inr (zero_row path name) /\
  dlist_csv_row (mk_dlist path name [] 0) = inr (zero_row path name) /\
  dlist_csv_row (mk_dlist path name [] (S count)) = inl ValueError.
Proof. repeat split; reflexivity. Qed.

(** C3 (code bug): adding a [Detection] with no responses to a fresh
    accumulator raises nothing, sets the count to 1 and adds no samples;
    the aggregate row of that accumulator is not produced: [csv_row]
    raises [ValueError]. *)
Theorem add_empty_detection_then_format (path name image_path : string) :
  let '(l, err) := add (new_dlist path name) (IDet (mk_detection image_path name [])) in
  err = None /\ num_detections l = 1%nat /\ dl_responses l = [] /\
  dlist_csv_row l = inl ValueError.
Proof.
  unfold add, new_dlist. simpl. rewrite String.eqb_refl. simpl.
  repeat split; reflexivity.
Qed.

(** C4: a successful [add] appends the other object's responses to
    [self]'s and adds 1 (a [Detection]) or the other's count (a
    [DetectionList]) to [self]'s count; path and name are kept. *)
Theorem add_effect (self : DetectionList) (other : item)
  (Hname : item_detector_name other = dl_detector_name self) :
  add self other =
    (mk_dlist (dl_path self) (dl_detector_name self)
       (dl_responses self ++ item_responses other)
       (num_detections self +
          match other with IDet _ => 1 | IDList l => num_detections l end), None).
Proof. rewrite add_name_eq by exact Hname. destruct other; reflexivity. Qed.

Lemma add_effect_witness :
  item_detector_name (IDList (mk_dlist "d/sub/**" "ORB" [R1] 3)) =
    dl_detector_name (mk_dlist "d/**" "ORB" [R0] 2) /\
  add (mk_dlist "d/**" "ORB" [R0] 2) (IDList (mk_dlist "d/sub/**" "ORB" [R1] 3)) =
    (mk_dlist "d/**" "ORB" ([R0] ++ [R1]) (2 + 3), None).
Proof.
  split; [reflexivity |].
  apply (add_effect (mk_dlist "d/**" "ORB" [R0] 2) (IDList (mk_dlist "d/sub/**" "ORB" [R1] 3))).
  reflexivity.
Defined.

(** C5 (code bug): the row of a [Detection] with no responses has
    [d_num = 0], although a [Detection] stands for one detection (and the
    accumulator it is added to counts it as one). *)
Theorem detection_row_empty_d_num (path name : string) :
  item_count (IDet (mk_detection path name [])) = 1%nat /\
  num_detections (fst (add (new_dlist "." name) (IDet (mk_detection path name [])))) = 1%nat /\
  exists r, detection_csv_row (mk_detection path name []) = inr r /\ d_num r = 0%nat.
Proof.
  split; [reflexivity |]. split.
  - unfold add. simpl. rewrite String.eqb_refl. reflexivity.
  - eexists. split; reflexivity.
Qed.

(** C7: [add] raises [AssertionError] exactly when the detector names
    differ, and then leaves [self] unchanged. *)
Theorem add_mismatch (self : DetectionList) (other : item) :
  (item_detector_name other <> dl_detector_name self ->
     add self other = (self, Some AssertionError)) /\
  (snd (add self other) = None <-> item_detector_name other = dl_detector_name self).
Proof.
  split; [apply add_name_neq |]. split.
  - intros H. destruct (String.eqb_spec (item_detector_name other) (dl_detector_name self))
      as [E | E]; [exact E |].
    rewrite add_name_neq in H by exact E. discriminate.
  - intros H. rewrite add_name_eq by exact H. reflexivity.
Qed.

(** C10: in every reachable accumulator a zero count means no samples. *)
Theorem reachable_count_zero_no_samples (l : DetectionList)
  (Hr : reachable l) (H0 : num_detections l = 0%nat) :
  dl_responses l = [].
Proof.
  revert H0. induction Hr as [p n | l l' d Hl IH Hadd | l m l' Hl IHl Hm IHm Hadd]; intros H0.
  - reflexivity.
  - unfold add in Hadd. destruct (negb _); inversion Hadd; subst.
    simpl in H0. lia.
  - unfold add in Hadd. destruct (negb _); inversion Hadd; subst.
    simpl in H0 |- *. rewrite IHl, IHm by lia. reflexivity.
Qed.

Lemma reachable_count_zero_no_samples_witness :
  reachable (new_dlist "d" "SIFT") /\ num_detections (new_dlist "d" "SIFT") = 0%nat /\
  dl_responses (new_dlist "d" "SIFT") = [].
Proof.
  split; [constructor |]. split; [reflexivity |].
  apply (reachable_count_zero_no_samples (new_dlist "d" "SIFT")); [constructor | reflexivity].
Defined.

(** *** The builtins [min] and [max] compute the extrema *)

Lemma fold_min_spec (rest : list R) (x : R) :
  let m := fold_left (fun acc y => if Rlt_dec y acc then y else acc) rest x in
  In m (x :: rest) /\ Forall (fun y => m <= y) (x :: rest).
Proof.
  revert x. induction rest as [| y rest IH]; intros x; simpl.
  - split; [left; reflexivity | constructor; [lra | constructor]].
  - destruct (Rlt_dec y x) as [Hlt | Hge].
    + destruct (IH y) as [Hin Hall]. split.
      * simpl in Hin. tauto.
      * inversion Hall as [| ? ? Hy Hrest]; subst.
        constructor; [lra | constructor; assumption].
    + destruct (IH x) as [Hin Hall]. split.
      * simpl in Hin. tauto.
      * inversion Hall as [| ? ? Hx Hrest]; subst.
        constructor; [assumption | constructor; [lra | assumption]].
Qed.

Lemma fold_max_spec (rest : list R) (x : R) :
  let m := fold_left (fun acc y => if Rlt_dec acc y then y else acc) rest x in
  In m (x :: rest) /\ Forall (fun y => y <= m) (x :: rest).
Proof.
  revert x. induction rest as [| y rest IH]; intros x; simpl.
  - split; [left; reflexivity | constructor; [lra | constructor]].
  - destruct (Rlt_dec x y) as [Hlt | Hge].
    + destruct (IH y) as [Hin Hall]. split.
      * simpl in Hin. tauto.
      * inversion Hall as [| ? ? Hy Hrest]; subst.
        constructor; [lra | constructor; assumption].
    + destruct (IH x) as [Hin Hall]. split.
      * simpl in Hin. tauto.
      * inversion Hall as [| ? ? Hx Hrest]; subst.
        constructor; [assumption | constructor; [lra | assumption]].
Qed.

Lemma py_min_spec (xs : list R) :
  xs <> [] -> exists m, py_min xs = inr m /\ In m xs /\ Forall (fun y => m <= y) xs.
Proof.
  destruct xs as [| x rest]; [congruence |]. intros _.
  eexists. split; [reflexivity | apply fold_min_spec].
Qed.

Lemma py_max_spec (xs : list R) :
  xs <> [] -> exists m, py_max xs = inr m /\ In m xs /\ Forall (fun y => y <= m) xs.
Proof.
  destruct xs as [| x rest]; [congruence |]. intros _.
  eexists. split; [reflexivity | apply fold_max_spec].
Qed.

(** *** The statistics as the specification words them *)

(** The arithmetic mean of the samples. *)
Definition spec_mean (xs : list R) : R := sum_list xs / INR (List.length xs).

(** The population standard deviation: the square root of the mean squared
    deviation, dividing by N. *)
Definition spec_pop_std (xs : list R) : R :=
  sqrt (sum_list (map (fun x => (x - spec_mean xs) ^ 2) xs) / INR (List.length xs)).

(** A row reports [samples] gathered over [count] detections. *)
Definition row_stats_spec (r : row) (samples : list R) (count : nat) : Prop :=
  d_num r = count /\
  f_mean r = INR (List.length samples) / INR count /\
  In (r_min r) samples /\ Forall (fun y => r_min r <= y) samples /\
  In (r_max r) samples /\ Forall (fun y => y <= r_max r) samples /\
  r_mean r = spec_mean samples /\
  r_std r = spec_pop_std samples.

Lemma np_std_pop (xs : list R) : np_std xs = spec_pop_std xs.
Proof.
  unfold np_std, np_var, spec_pop_std, np_mean, spec_mean.
  rewrite Nat.sub_0_r. f_equal. f_equal. f_equal.
  apply map_ext. intros x. ring.
Qed.

(** C6: for a non-empty sample sequence and a count of at least one, each
    formatter produces a row with [d_num = count], [f_mean = len/count], the
    extrema, the arithmetic mean and the population standard deviation. *)
Theorem csv_row_nonempty_stats (o : item)
  (Hne : item_responses o <> []) (Hcount : (1 <= item_count o)%nat) :
  exists r, item_csv_row o = inr r /\
            row_stats_spec r (item_responses o) (item_count o).
Proof.
  destruct (py_min_spec _ Hne) as [mn [Hmn [Hinmn Hallmn]]].
  destruct (py_max_spec _ Hne) as [mx [Hmx [Hinmx Hallmx]]].
  destruct o as [d | l]; simpl in *.
  - unfold detection_csv_row.
    replace (Nat.ltb 0 (List.length (det_responses d))) with true
      by (symmetry; apply Nat.ltb_lt; destruct (det_responses d);
          [congruence | simpl; lia]).
    rewrite Hmn, Hmx. simpl. eexists. split; [reflexivity |].
    unfold row_stats_spec. simpl.
    repeat split; try assumption.
    + unfold Rdiv. rewrite Rinv_1, Rmult_1_r. reflexivity.
    + apply np_std_pop.
  - unfold dlist_csv_row.
    replace (Nat.ltb 0 (num_detections l)) with true
      by (symmetry; apply Nat.ltb_lt; lia).
    rewrite Hmn, Hmx. simpl. eexists. split; [reflexivity |].
    unfold row_stats_spec. simpl.
    repeat split; try assumption.
    apply np_std_pop.
Qed.

(** The two-image aggregate of the specification: responses [[1; 2]] and
    [[3]] for one detector. *)
Definition two_image_aggregate : DetectionList :=
  fst (add (fst (add (new_dlist "d" "SIFT") (IDet (mk_detection "d/A.jpg" "SIFT" [1; 2]))))
           (IDet (mk_detection "d/B.jpg" "SIFT" [3]))).

Lemma csv_row_nonempty_stats_witness :
  exists r, item_csv_row (IDList two_image_aggregate) = inr r /\
            row_stats_spec r [1; 2; 3] 2.
Proof.
  apply (csv_row_nonempty_stats (IDList two_image_aggregate)).
  - simpl. discriminate.
  - simpl. lia.
Defined.

(** The row of the two-image aggregate, with the values the specification
    lists: [d_num=2, f_mean=1.5, r_min=1, r_max=3, r_mean=2] and the
    population standard deviation [sqrt(((1-2)^2+(2-2)^2+(3-2)^2)/3)]. *)
Example two_image_aggregate_row :
  dlist_csv_row two_image_aggregate =
    inr (mk_row "d/**" "SIFT" 2 (3 / 2) 1 3 2
           (sqrt (((1 - 2) ^ 2 + (2 - 2) ^ 2 + (3 - 2) ^ 2) / 3))).
Proof.
  unfold two_image_aggregate, add, new_dlist. simpl.
  unfold dlist_csv_row, py_min, py_max. simpl.
  destruct (Rlt_dec 2 1); [lra |]. destruct (Rlt_dec 3 1); [lra |].
  destruct (Rlt_dec 1 2); [| lra]. destruct (Rlt_dec 2 3); [| lra].
  simpl.
  assert (Hm : np_mean [1; 2; 3] = 2) by (unfold np_mean, sum_list; simpl; field).
  unfold np_std, np_var. rewrite Hm. simpl.
  f_equal. f_equal; first [reflexivity | field | f_equal; field].
Qed.

(** *** Merging is insensitive to order and grouping *)

Fixpoint merge_tree_ind' (P : merge_tree -> Prop)
  (Hleaf : forall i, P (MLeaf i))
  (Hgroup : forall path ts, Forall P ts -> P (MGroup path ts))
  (t : merge_tree) {struct t} : P t :=
  match t with
  | MLeaf i => Hleaf i
  | MGroup path ts =>
      Hgroup path ts
        ((fix go (ts : list merge_tree) : Forall P ts :=
            match ts with
            | [] => Forall_nil P
            | t :: rest => Forall_cons t (merge_tree_ind' P Hleaf Hgroup t) (go rest)
            end) ts)
  end.

Definition tree_eval_ok (name : string) (t : merge_tree) : Prop :=
  exists i, eval_tree name t = inr i /\ item_detector_name i = name /\
            item_count i = total_count (tree_leaves t) /\
            item_responses i = List.concat (map item_responses (tree_leaves t)).

Lemma total_count_app (xs ys : list item) :
  total_count (xs ++ ys) = (total_count xs + total_count ys)%nat.
Proof.
  induction xs as [| x xs IH]; simpl; [reflexivity |].
  unfold total_count in *. simpl. rewrite IH. lia.
Qed.

Lemma add_children_ok (name : string) (ts : list merge_tree) (acc : DetectionList) :
  Forall (fun t => Forall (fun i => item_detector_name i = name) (tree_leaves t) ->
                   tree_eval_ok name t) ts ->
  Forall (fun i => item_detector_name i = name) (flat_map tree_leaves ts) ->
  dl_detector_name acc = name ->
  exists l, add_children (eval_tree name) acc ts = inr (IDList l) /\
            dl_path l = dl_path acc /\ dl_detector_name l = name /\
            num_detections l = (num_detections acc + total_count (flat_map tree_leaves ts))%nat /\
            dl_responses l =
              (dl_responses acc ++ List.concat (map item_responses (flat_map tree_leaves ts)))%list.
Proof.
  revert acc. induction ts as [| t rest IHts]; intros acc IH Hn Hacc.
  - exists acc. simpl. rewrite Nat.add_0_r, app_nil_r. repeat split; auto.
  - apply Forall_cons_iff in IH as [Ht Hrest]. simpl in Hn.
    apply Forall_app in Hn as [Hnt Hnrest].
    destruct (Ht Hnt) as [i [Hev [Hin [Hic Hir]]]].
    simpl. rewrite Hev. simpl.
    rewrite add_name_eq by congruence.
    destruct (IHts (mk_dlist (dl_path acc) (dl_detector_name acc)
                      (dl_responses acc ++ item_responses i)
                      (num_detections acc + item_count i)) Hrest Hnrest)
      as [l [Hl [Hp [Hname [Hc Hr]]]]]; [simpl; exact Hacc |].
    exists l. rewrite Hl. simpl in *. repeat split; auto.
    + rewrite Hc, Hic, total_count_app. lia.
    + rewrite Hr, Hir, map_app, List.concat_app, app_assoc. reflexivity.
Qed.

Lemma eval_tree_ok (name : string) (t : merge_tree) :
  Forall (fun i => item_detector_name i = name) (tree_leaves t) -> tree_eval_ok name t.
Proof.
  induction t as [i | path ts IH] using merge_tree_ind'; intros Hn.
  - exists i. simpl in *. apply Forall_cons_iff in Hn as [Hi _].
    unfold total_count. simpl. rewrite app_nil_r, Nat.add_0_r.
    repeat split; assumption.
  - destruct (add_children_ok name ts (new_dlist path name) IH Hn eq_refl)
      as [l [Hl [_ [Hname [Hc Hr]]]]].
    exists (IDList l). simpl. rewrite Hl. repeat split; auto.
Qed.

Lemma sum_list_perm (xs ys : list R) : Permutation xs ys -> sum_list xs = sum_list ys.
Proof.
  induction 1; unfold sum_list in *; simpl; try lra.
Qed.

Lemma np_mean_perm (xs ys : list R) : Permutation xs ys -> np_mean xs = np_mean ys.
Proof.
  intros H. unfold np_mean. rewrite (sum_list_perm _ _ H), (Permutation_length H).
  reflexivity.
Qed.

Lemma np_std_perm (xs ys : list R) : Permutation xs ys -> np_std xs = np_std ys.
Proof.
  intros H. unfold np_std, np_var. rewrite (np_mean_perm _ _ H), (Permutation_length H).
  f_equal. f_equal. apply sum_list_perm, Permutation_map, H.
Qed.

Lemma py_min_perm (xs ys : list R) : Permutation xs ys -> py_min xs = py_min ys.
Proof.
  intros H. destruct xs as [| x xs].
  - apply Permutation_nil in H. subst. reflexivity.
  - assert (Hx : x :: xs <> []) by discriminate.
    assert (Hy : ys <> []) by (intros E; subst; apply Permutation_sym, Permutation_nil in H; discriminate).
    destruct (py_min_spec _ Hx) as [m1 [E1 [In1 F1]]].
    destruct (py_min_spec _ Hy) as [m2 [E2 [In2 F2]]].
    rewrite E1, E2. f_equal. apply Rle_antisym.
    + rewrite Forall_forall in F1. apply F1. apply (Permutation_in _ (Permutation_sym H) In2).
    + rewrite Forall_forall in F2. apply F2. apply (Permutation_in _ H In1).
Qed.

Lemma py_max_perm (xs ys : list R) : Permutation xs ys -> py_max xs = py_max ys.
Proof.
  intros H. destruct xs as [| x xs].
  - apply Permutation_nil in H. subst. reflexivity.
  - assert (Hx : x :: xs <> []) by discriminate.
    assert (Hy : ys <> []) by (intros E; subst; apply Permutation_sym, Permutation_nil in H; discriminate).
    destruct (py_max_spec _ Hx) as [m1 [E1 [In1 F1]]].
    destruct (py_max_spec _ Hy) as [m2 [E2 [In2 F2]]].
    rewrite E1, E2. f_equal. apply Rle_antisym.
    + rewrite Forall_forall in F2. apply F2. apply (Permutation_in _ H In1).
    + rewrite Forall_forall in F1. apply F1. apply (Permutation_in _ (Permutation_sym H) In2).
Qed.

(** The aggregate row depends on the responses only up to order. *)
Lemma dlist_csv_row_perm (path name : string) (xs ys : list R) (n : nat) :
  Permutation xs ys ->
  dlist_csv_row (mk_dlist path name xs n) = dlist_csv_row (mk_dlist path name ys n).
Proof.
  intros H. unfold dlist_csv_row. simpl.
  rewrite (py_min_perm _ _ H), (py_max_perm _ _ H), (np_mean_perm _ _ H),
    (np_std_perm _ _ H), (Permutation_length H).
  reflexivity.
Qed.

Lemma concat_map_perm (f : item -> list R) (xs ys : list item) :
  Permutation xs ys -> Permutation (List.concat (map f xs)) (List.concat (map f ys)).
Proof.
  induction 1 as [| x xs ys H IH | x y xs | xs ys zs H1 IH1 H2 IH2]; simpl.
  - constructor.
  - apply Permutation_app_head, IH.
  - rewrite !app_assoc. apply Permutation_app_tail, Permutation_app_comm.
  - eapply Permutation_trans; eassumption.
Qed.

Lemma total_count_perm (xs ys : list item) :
  Permutation xs ys -> total_count xs = total_count ys.
Proof.
  induction 1; unfold total_count in *; simpl; lia.
Qed.

(** The columns of a formatted row whose float64 value does not depend on
    the order of the responses: path, detector, [d_num], [f_mean] (an
    [int / int] division), [r_min] and [r_max] (comparisons are exact); or
    the exception raised. [r_mean] and [r_std] are left out: [np.mean] and
    [np.std] add the responses in float64 in list order (see
    [np_mean64] below). *)
Definition order_free_cols (r : exc + row) : exc + (string * string * nat * R * R * R) :=
  match r with
  | inl e => inl e
  | inr x => inr (row_path x, row_detector x, d_num x, f_mean x, r_min x, r_max x)
  end.

(** C2 (amended): merging the same Detections and DetectionLists of one
    detector into a fresh DetectionList, in any order and through any
    nesting of intermediate DetectionLists, gives the same count, the same
    multiset of responses, and the same [d_num], [f_mean], [r_min] and
    [r_max] in the aggregate row (or the same exception). *)
Theorem merge_order_and_grouping_irrelevant (name path : string)
  (ts1 ts2 : list merge_tree)
  (Hname : Forall (fun i => item_detector_name i = name) (tree_leaves (MGroup path ts1)))
  (Hperm : Permutation (tree_leaves (MGroup path ts1)) (tree_leaves (MGroup path ts2))) :
  exists l1 l2,
    eval_tree name (MGroup path ts1) = inr (IDList l1) /\
    eval_tree name (MGroup path ts2) = inr (IDList l2) /\
    num_detections l1 = num_detections l2 /\
    Permutation (dl_responses l1) (dl_responses l2) /\
    order_free_cols (dlist_csv_row l1) = order_free_cols (dlist_csv_row l2).
Proof.
  assert (Hname2 : Forall (fun i => item_detector_name i = name) (tree_leaves (MGroup path ts2))).
  { rewrite Forall_forall in *. intros x Hx. apply Hname.
    apply (Permutation_in _ (Permutation_sym Hperm) Hx). }
  assert (Hts : forall ts, Forall (fun t => Forall (fun i => item_detector_name i = name)
                   (tree_leaves t) -> tree_eval_ok name t) ts)
    by (intros ts; apply Forall_forall; intros t _; apply eval_tree_ok).
  destruct (add_children_ok name ts1 (new_dlist path name) (Hts ts1) Hname eq_refl)
    as [l1 [E1 [_ [_ [C1 R1]]]]].
  destruct (add_children_ok name ts2 (new_dlist path name) (Hts ts2) Hname2 eq_refl)
    as [l2 [E2 [_ [_ [C2 R2]]]]].
  simpl in Hperm.
  assert (HR : Permutation (dl_responses l1) (dl_responses l2)).
  { rewrite R1, R2. apply concat_map_perm, Hperm. }
  assert (HC : num_detections l1 = num_detections l2).
  { rewrite C1, C2. simpl. apply total_count_perm, Hperm. }
  exists l1, l2. simpl. rewrite E1, E2. repeat split; auto.
  destruct l1 as [p1 n1 xs1 c1], l2 as [p2 n2 xs2 c2]. simpl in *.
  (* the two groups have the same path and detector *)
  assert (Hp : p1 = p2 /\ n1 = n2).
  { destruct (add_children_ok name ts1 (new_dlist path name) (Hts ts1) Hname eq_refl)
      as [l1' [E1' [P1 [N1 _]]]].
    destruct (add_children_ok name ts2 (new_dlist path name) (Hts ts2) Hname2 eq_refl)
      as [l2' [E2' [P2 [N2 _]]]].
    rewrite E1 in E1'. rewrite E2 in E2'. injection E1' as <-. injection E2' as <-.
    simpl in *. split; congruence. }
  destruct Hp as [<- <-]. subst c2. rewrite <- HC. f_equal. apply dlist_csv_row_perm, HR.
Qed.

(** Two images of one directory and one of its subdirectory, all for SIFT. *)
Definition det_A : item := IDet (mk_detection "d/A.jpg" "SIFT" [1; 2]).
Definition det_B : item := IDet (mk_detection "d/B.jpg" "SIFT" [3]).
Definition det_C : item := IDet (mk_detection "d/sub/C.jpg" "SIFT" [5]).

Lemma merge_order_and_grouping_irrelevant_witness :
  exists l1 l2,
    eval_tree "SIFT" (MGroup "d" [MLeaf det_A; MLeaf det_B; MLeaf det_C]) = inr (IDList l1) /\
    eval_tree "SIFT" (MGroup "d" [MGroup "d/sub" [MLeaf det_C]; MLeaf det_B; MLeaf det_A]) =
      inr (IDList l2) /\
    num_detections l1 = num_detections l2 /\
    Permutation (dl_responses l1) (dl_responses l2) /\
    order_free_cols (dlist_csv_row l1) = order_free_cols (dlist_csv_row l2).
Proof.
  apply (merge_order_and_grouping_irrelevant "SIFT" "d"
           [MLeaf det_A; MLeaf det_B; MLeaf det_C]
           [MGroup "d/sub" [MLeaf det_C]; MLeaf det_B; MLeaf det_A]).
  - simpl. repeat constructor.
  - simpl. apply (Permutation_rev [det_A; det_B; det_C]).
Defined.

(** *** Float64 summation in [np.mean]

    The responses are Python floats, and [np.mean(self.responses)] turns
    the list into a float64 array and evaluates [np.add.reduce(a) / n].
    The reduction starts from the first element and adds numpy's
    [pairwise_sum] of the remaining ones; for fewer than 8 remaining
    elements [pairwise_sum] adds them one by one, in array order, to
    [-0.0]. Longer arrays use eight interleaved accumulators and are not
    modelled here ([None]). *)

Definition f64 := PrimFloat.float.

(** The real number a finite binary64 value denotes (infinities and NaN,
    which have none, are sent to 0). *)
Definition sf_to_R (f : SpecFloat.spec_float) : R :=
  match f with
  | SpecFloat.S754_finite s m e => (if s then -1 else 1) * IZR (Zpos m) * powerRZ 2 e
  | _ => 0
  end.

Definition f64_to_R (x : f64) : R := sf_to_R (FloatOps.Prim2SF x).

(** numpy's [pairwise_sum] on fewer than 8 elements. *)
Definition pairwise_sum_small (xs : list f64) : f64 :=
  fold_left PrimFloat.add xs (PrimFloat.opp PrimFloat.zero).

(** [np.add.reduce] over a non-empty float64 array of at most 8 elements. *)
Definition np_sum64 (xs : list f64) : option f64 :=
  match xs with
  | [] => None
  | x :: rest =>
      if Nat.ltb (List.length rest) 8 then Some (PrimFloat.add x (pairwise_sum_small rest))
      else None
  end.

(** The count as a float64 (exact below 2^53). *)
Definition f64_of_nat (n : nat) : f64 :=
  PrimFloat.of_uint63 (Uint63.of_Z (Z.of_nat n)).

(** [np.mean(a)] = [np.add.reduce(a) / len(a)] in float64. *)
Definition np_mean64 (xs : list f64) : option f64 :=
  match np_sum64 xs with
  | Some t => Some (PrimFloat.div t (f64_of_nat (List.length xs)))
  | None => None
  end.

(** Three one-keypoint SIFT detections with responses 1, 2^-53 and 2^-53
    (all three also float32 values, as [KeyPoint.response] is), merged
    into a fresh DetectionList forwards and backwards. *)
Definition resp_one : f64 := PrimFloat.one.
Definition resp_tiny : f64 := FloatOps.Z.ldexp PrimFloat.one (-53)%Z.

Definition f64_leaf (p : string) (x : f64) : merge_tree :=
  MLeaf (IDet (mk_detection p "SIFT" [f64_to_R x])).

Definition merge_forward : merge_tree :=
  MGroup "d" [f64_leaf "d/A.jpg" resp_one; f64_leaf "d/B.jpg" resp_tiny;
              f64_leaf "d/C.jpg" resp_tiny].

Definition merge_backward : merge_tree :=
  MGroup "d" [f64_leaf "d/C.jpg" resp_tiny; f64_leaf "d/B.jpg" resp_tiny;
              f64_leaf "d/A.jpg" resp_one].

Lemma f64_neq (x y : f64) : PrimFloat.eqb x x = true -> PrimFloat.eqb x y = false -> x <> y.
Proof. intros Hxx Hxy E. subst y. congruence. Qed.

(** C2 counterexample: the two merge orders give DetectionLists with the
    same count and the same responses up to order, but [np.mean] of their
    responses, the [r_mean] column, is 0x1.5555555555557p-2
    (0.33333333333333337) for one and 0x1.5555555555555p-2
    (0.3333333333333333) for the other. (Adding the three strictly left to
    right would swap the two values; they differ either way.) *)
Theorem merge_order_changes_r_mean :
  exists l1 l2 xs1 xs2 m1 m2,
    eval_tree "SIFT" merge_forward = inr (IDList l1) /\
    eval_tree "SIFT" merge_backward = inr (IDList l2) /\
    num_detections l1 = num_detections l2 /\
    dl_responses l1 = map f64_to_R xs1 /\
    dl_responses l2 = map f64_to_R xs2 /\
    Permutation xs1 xs2 /\
    np_mean64 xs1 = Some m1 /\
    np_mean64 xs2 = Some m2 /\
    m1 <> m2.
Proof.
  exists (mk_dlist "d/**" "SIFT" (map f64_to_R [resp_one; resp_tiny; resp_tiny]) 3%nat),
         (mk_dlist "d/**" "SIFT" (map f64_to_R [resp_tiny; resp_tiny; resp_one]) 3%nat),
         [resp_one; resp_tiny; resp_tiny], [resp_tiny; resp_tiny; resp_one].
  eexists. eexists.
  split; [reflexivity |]. split; [reflexivity |].
  split; [reflexivity |]. split; [reflexivity |]. split; [reflexivity |].
  split; [apply (Permutation_rev [resp_one; resp_tiny; resp_tiny]) |].
  split; [vm_compute; reflexivity |]. split; [vm_compute; reflexivity |].
  apply f64_neq; vm_compute; reflexivity.
Qed.

(** *** The traversal *)

(** C8: a [.jpg] entry that cannot be decoded adds the two console lines
    of [process_image] to the trace and nothing else (no row written, no
    detector run), raises nothing, leaves the accumulators as they were,
    and the loop goes on with the remaining entries. *)
Theorem decode_failure_skipped (image : Type) (imread : string -> option image)
  (detectors : list (detector image)) (recurse annotate : bool)
  (path stats name : string) (dls : dict) (rest : list fs_entry) (s : list event)
  (Hjpg : endswith (lower name) ".jpg" = true)
  (Hfail : imread (path_join path name) = None) :
  let logs := [EPrint ("Open " ++ path_join path name);
               EPrint ("Failed to load image: " ++ path_join path name)] in
  process_entry image imread detectors recurse annotate path stats dls (FsFile name) s
    = ((s ++ logs)%list, inr dls) /\
  entry_loop (process_entry image imread detectors recurse annotate) path stats dls
    (FsFile name :: rest) s
  = entry_loop (process_entry image imread detectors recurse annotate) path stats dls
      rest (s ++ logs)%list.
Proof.
  assert (Hstep : process_entry image imread detectors recurse annotate path stats dls
                    (FsFile name) s
                  = ((s ++ [EPrint ("Open " ++ path_join path name);
                            EPrint ("Failed to load image: " ++ path_join path name)])%list,
                     inr dls)).
  { simpl. rewrite Hjpg. unfold bind, process_image, emit. rewrite Hfail.
    simpl. rewrite <- app_assoc. reflexivity. }
  split; [exact Hstep |].
  cbn [entry_loop]. unfold bind at 1. rewrite Hstep. reflexivity.
Qed.

Definition unreadable (p : string) : option unit :=
  if String.eqb p "d/bad.jpg" then None else Some tt.

Lemma decode_failure_skipped_witness :
  let logs := [EPrint ("Open " ++ "d/bad.jpg"); EPrint ("Failed to load image: " ++ "d/bad.jpg")] in
  process_entry unit unreadable [mk_detector unit "SIFT" (fun _ => [1])] true false
    "d" "d/stats.csv" [] (FsFile "bad.jpg") [] = (([] ++ logs)%list, inr []) /\
  entry_loop (process_entry unit unreadable [mk_detector unit "SIFT" (fun _ => [1])] true false)
    "d" "d/stats.csv" [] [FsFile "bad.jpg"] []
  = entry_loop (process_entry unit unreadable [mk_detector unit "SIFT" (fun _ => [1])] true false)
      "d" "d/stats.csv" [] [] ([] ++ logs)%list.
Proof.
  apply (decode_failure_skipped unit unreadable [mk_detector unit "SIFT" (fun _ => [1])]
           true false "d" "d/stats.csv" "bad.jpg" [] [] []); reflexivity.
Defined.

(** C9 (code bug): a directory holding one image on which the only
    detector finds no keypoint. The per-image row is written, then the
    aggregate row of the detector raises [ValueError] ([num_detections] is 1,
    the responses are empty) and the run stops: the directory gets no
    aggregate row at all. *)
Theorem zero_keypoint_directory_loses_aggregate_row :
  process_directory unit (fun _ => Some tt) [mk_detector unit "SIFT" (fun _ => [])]
    true false "d" [FsFile "a.jpg"] []
  = ([EOpen "d/stats.csv"; EWrite "d/stats.csv" LHeader;
      EPrint "Open d/a.jpg"; EDetect "SIFT" "d/a.jpg";
      EWrite "d/stats.csv" (LRow (zero_row "d/a.jpg" "SIFT"))],
     inl ValueError).
Proof. reflexivity. Qed.

(** *** Generic facts on the monad and on dicts *)

Lemma bind_inr {A B} (m : M A) (f : A -> M B) (s s' : list event) (b : B) :
  bind m f s = (s', inr b) ->
  exists s1 a, m s = (s1, inr a) /\ f a s1 = (s', inr b).
Proof.
  unfold bind. destruct (m s) as [s1 [e | a]]; [discriminate |].
  intros H. exists s1, a. split; [reflexivity | exact H].
Qed.

Lemma dict_get_middle (l1 l2 : dict) (k : string) (v : DetectionList) :
  ~ In k (map fst l1) -> dict_get (l1 ++ (k, v) :: l2)%list k = inr v.
Proof.
  induction l1 as [| [k' v'] l1 IH]; simpl; intros Hn.
  - rewrite String.eqb_refl. reflexivity.
  - destruct (String.eqb_spec k k') as [E | E]; [subst; tauto |].
    apply IH. tauto.
Qed.

Lemma dict_set_middle (l1 l2 : dict) (k : string) (v v' : DetectionList) :
  ~ In k (map fst l1) -> dict_set (l1 ++ (k, v) :: l2)%list k v' = (l1 ++ (k, v') :: l2)%list.
Proof.
  induction l1 as [| [k' w] l1 IH]; simpl; intros Hn.
  - rewrite String.eqb_refl. reflexivity.
  - destruct (String.eqb_spec k k') as [E | E]; [subst; tauto |].
    rewrite IH by tauto. reflexivity.
Qed.

Lemma dict_set_absent (l : dict) (k : string) (v : DetectionList) :
  ~ In k (map fst l) -> dict_set l k v = (l ++ [(k, v)])%list.
Proof.
  induction l as [| [k' w] l IH]; simpl; intros Hn; [reflexivity |].
  destruct (String.eqb_spec k k') as [E | E]; [subst; tauto |].
  rewrite IH by tauto. reflexivity.
Qed.

Lemma detection_csv_row_total (d : Detection) : exists r, detection_csv_row d = inr r.
Proof.
  unfold detection_csv_row. destruct (det_responses d) as [| x rest]; simpl.
  - eexists. reflexivity.
  - eexists. reflexivity.
Qed.

(** *** What a directory traversal accumulates *)

Section TraversalFacts.

Variable image : Type.
Variable imread : string -> option image.
Variable detectors : list (detector image).
Variables recurse annotate : bool.

Local Abbreviation nm := (@detector_class_name image).
Local Abbreviation scope := (scope_dict image detectors).

Lemma run_detectors_result (ds : list (detector image)) (img : image) (p : string)
  (acc : list Detection) (s : list event) :
  exists s', run_detectors image ds img p annotate acc s =
    (s', inr (acc ++ map (fun dt => mk_detection p (nm dt) (detect image dt img)) ds)%list).
Proof.
  revert acc s. induction ds as [| dt rest IH]; intros acc s; simpl.
  - exists s. rewrite app_nil_r. reflexivity.
  - unfold bind at 1, emit at 1.
    destruct annotate; unfold bind at 1; simpl.
    + destruct (IH (acc ++ [mk_detection p (nm dt) (detect image dt img)])%list
                  ((s ++ [EDetect (nm dt) p]) ++ [EAnnotate (nm dt) p])%list) as [s' E].
      exists s'. rewrite E, <- app_assoc. reflexivity.
    + destruct (IH (acc ++ [mk_detection p (nm dt) (detect image dt img)])%list
                  (s ++ [EDetect (nm dt) p])%list) as [s' E].
      exists s'. rewrite E, <- app_assoc. reflexivity.
Qed.

(** The detections [process_image] returns. *)
Lemma process_image_result (p : string) (s : list event) :
  exists s', process_image image imread detectors p annotate s =
    (s', inr (match imread p with
              | Some img => map (fun dt => mk_detection p (nm dt) (detect image dt img)) detectors
              | None => []
              end)).
Proof.
  unfold process_image, bind at 1, emit at 1. simpl.
  destruct (imread p) as [img |].
  - match goal with |- context [run_detectors _ _ _ _ _ _ ?s0] =>
      destruct (run_detectors_result detectors img p [] s0) as [s' E] end.
    exists s'. rewrite E. reflexivity.
  - eexists. reflexivity.
Qed.

Hypothesis Hnodup : NoDup (map nm detectors).

Lemma nodup_split (done todo : list (detector image)) (dt : detector image) :
  NoDup (map nm (done ++ dt :: todo)) -> ~ In (nm dt) (map nm done).
Proof.
  rewrite map_app. simpl. intros H. apply NoDup_remove_2 in H.
  intros Hin. apply H, in_or_app. left. exact Hin.
Qed.

Lemma map_fst_entries (f : detector image -> DetectionList) (ds : list (detector image)) :
  map fst (map (fun dt => (nm dt, f dt)) ds) = map nm ds.
Proof. rewrite map_map. reflexivity. Qed.

(** Writing the rows of one image's detections and adding them, in
    detector order, to accumulators keyed by the detector names. *)
Lemma write_and_add_in_order (stats p P : string) (Rs : detector image -> list R) (c : nat)
  (img : image) (done todo : list (detector image)) (s : list event) :
  NoDup (map nm (done ++ todo)) ->
  exists s',
    write_and_add stats
      (map (fun dt => (nm dt, mk_dlist P (nm dt) (Rs dt ++ detect image dt img) (c + 1))) done ++
       map (fun dt => (nm dt, mk_dlist P (nm dt) (Rs dt) c)) todo)%list
      (map (fun dt => mk_detection p (nm dt) (detect image dt img)) todo) s =
    (s', inr (map (fun dt => (nm dt, mk_dlist P (nm dt) (Rs dt ++ detect image dt img) (c + 1)))
                  (done ++ todo))).
Proof.
  revert done s. induction todo as [| dt todo IH]; intros done s Hnd.
  - exists s. simpl. rewrite !app_nil_r. reflexivity.
  - simpl. destruct (detection_csv_row_total (mk_detection p (nm dt) (detect image dt img)))
      as [r Er].
    unfold bind at 1, lift. rewrite Er. unfold bind at 1, emit.
    unfold bind at 1. unfold dict_add.
    rewrite dict_get_middle
      by (rewrite map_fst_entries; apply (nodup_split done todo dt Hnd)).
    simpl. rewrite add_name_eq by reflexivity. simpl.
    rewrite dict_set_middle
      by (rewrite map_fst_entries; apply (nodup_split done todo dt Hnd)).
    destruct (IH (done ++ [dt])%list (s ++ [EWrite stats (LRow r)])%list) as [s' E].
    { rewrite <- app_assoc. exact Hnd. }
    exists s'.
    replace ((done ++ [dt]) ++ todo)%list with (done ++ dt :: todo)%list in E
      by (rewrite <- app_assoc; reflexivity).
    rewrite map_app, <- app_assoc in E. exact E.
Qed.

(** Adding a subdirectory's accumulators (one per detector, same order)
    to this directory's ones. *)
Lemma add_sub_lists_in_order (P Psub : string) (Rs Rsub : detector image -> list R)
  (c csub : nat) (done todo : list (detector image)) (s : list event) :
  NoDup (map nm (done ++ todo)) ->
  add_sub_lists
    (map (fun dt => (nm dt, mk_dlist P (nm dt) (Rs dt ++ Rsub dt) (c + csub))) done ++
     map (fun dt => (nm dt, mk_dlist P (nm dt) (Rs dt) c)) todo)%list
    (map (fun dt => (nm dt, mk_dlist Psub (nm dt) (Rsub dt) csub)) todo) s =
  (s, inr (map (fun dt => (nm dt, mk_dlist P (nm dt) (Rs dt ++ Rsub dt) (c + csub)))
               (done ++ todo))).
Proof.
  revert done. induction todo as [| dt todo IH]; intros done Hnd.
  - simpl. rewrite !app_nil_r. reflexivity.
  - simpl. unfold bind at 1, lift, dict_add.
    rewrite dict_get_middle
      by (rewrite map_fst_entries; apply (nodup_split done todo dt Hnd)).
    simpl. rewrite add_name_eq by reflexivity. simpl.
    rewrite dict_set_middle
      by (rewrite map_fst_entries; apply (nodup_split done todo dt Hnd)).
    specialize (IH (done ++ [dt])%list). rewrite <- app_assoc in IH.
    specialize (IH Hnd). rewrite map_app, <- app_assoc in IH. exact IH.
Qed.

(** A fresh scope has one empty accumulator per detector, in order. *)
Lemma init_lists_scope (path : string) :
  init_lists image detectors path = scope path (fun _ => []) 0%nat.
Proof.
  unfold init_lists, scope_dict.
  assert (G : forall done todo, NoDup (map nm (done ++ todo)) ->
            fold_left (fun d dt => dict_set d (nm dt) (new_dlist path (nm dt))) todo
              (map (fun dt => (nm dt, new_dlist path (nm dt))) done) =
            map (fun dt => (nm dt, new_dlist path (nm dt))) (done ++ todo)).
  { intros done todo. revert done. induction todo as [| dt todo IH]; intros done Hnd.
    - rewrite app_nil_r. reflexivity.
    - simpl. rewrite dict_set_absent
        by (rewrite map_fst_entries; apply (nodup_split done todo dt Hnd)).
      specialize (IH (done ++ [dt])%list). rewrite <- app_assoc in IH. cbn [app] in IH.
      rewrite <- IH by exact Hnd. rewrite map_app. reflexivity. }
  apply (G [] detectors Hnodup).
Qed.

Lemma scope_ext (path : string) (R1 R2 : detector image -> list R) (c1 c2 : nat) :
  (forall dt, R1 dt = R2 dt) -> c1 = c2 -> scope path R1 c1 = scope path R2 c2.
Proof.
  intros HR <-. unfold scope_dict. apply map_ext. intros dt. rewrite HR. reflexivity.
Qed.

Local Abbreviation step := (process_entry image imread detectors recurse annotate).
Local Abbreviation images := (entry_images image imread recurse).

Definition entry_ok (e : fs_entry) : Prop :=
  forall path stats Rs c s s' out,
    step path stats (scope path Rs c) e s = (s', inr out) ->
    out = scope path (fun dt => Rs dt ++ List.concat (map (detect image dt) (images path e)))%list
                (c + List.length (images path e)).

Fixpoint fs_entry_ind' (P : fs_entry -> Prop)
  (Hfile : forall name, P (FsFile name))
  (Hdir : forall name es, Forall P es -> P (FsDir name es))
  (Hother : forall name, P (FsOther name))
  (e : fs_entry) {struct e} : P e :=
  match e with
  | FsFile name => Hfile name
  | FsDir name es =>
      Hdir name es
        ((fix go (es : list fs_entry) : Forall P es :=
            match es with
            | [] => Forall_nil P
            | e :: rest => Forall_cons e (fs_entry_ind' P Hfile Hdir Hother e) (go rest)
            end) es)
  | FsOther name => Hother name
  end.

Lemma entry_loop_scope (es : list fs_entry) :
  Forall entry_ok es ->
  forall path stats Rs c s s' out,
    entry_loop step path stats (scope path Rs c) es s = (s', inr out) ->
    out = scope path
            (fun dt => Rs dt ++ List.concat (map (detect image dt) (flat_map (images path) es)))%list
            (c + List.length (flat_map (images path) es)).
Proof.
  induction es as [| e es IH]; intros Hok path stats Rs c s s' out H.
  - simpl in H. injection H as _ <-. apply scope_ext; intros; simpl; solve [rewrite ?app_nil_r; reflexivity | lia].
  - apply Forall_cons_iff in Hok as [He Hes].
    simpl in H. apply bind_inr in H as (s1 & mid & H1 & H2).
    apply He in H1. subst mid.
    apply (IH Hes) in H2. rewrite H2. apply scope_ext.
    + intros dt. simpl. rewrite map_app, List.concat_app, app_assoc. reflexivity.
    + simpl. rewrite length_app. lia.
Qed.

Lemma run_directory_scope (path : string) (entries : list fs_entry) (s s' : list event)
  (out : dict) :
  Forall entry_ok entries ->
  run_directory image detectors step path entries s = (s', inr out) ->
  out = scope path (fun dt => List.concat (map (detect image dt) (flat_map (images path) entries)))
              (List.length (flat_map (images path) entries)).
Proof.
  intros Hok H. unfold run_directory in H.
  apply bind_inr in H as (s1 & u1 & _ & H).
  apply bind_inr in H as (s2 & u2 & _ & H).
  apply bind_inr in H as (s3 & dls & H3 & H).
  apply bind_inr in H as (s4 & u4 & _ & H).
  unfold ret in H. injection H as _ <-.
  rewrite init_lists_scope in H3.
  apply (entry_loop_scope entries Hok) in H3. rewrite H3.
  apply scope_ext; reflexivity.
Qed.

Lemma all_entries_ok (e : fs_entry) : entry_ok e.
Proof.
  induction e as [name | name es IH | name] using fs_entry_ind';
    intros path stats Rs c s s' out H; simpl in H |- *.
  - destruct (endswith (lower name) ".jpg").
    + apply bind_inr in H as (s1 & ds & H1 & H2).
      destruct (process_image_result (path_join path name) s)
        as [s1' E]. rewrite E in H1. injection H1 as <- <-.
      destruct (imread (path_join path name)) as [img |].
      * destruct (write_and_add_in_order stats (path_join path name)
                    (path_join path "**") Rs c img [] detectors s1') as [s2 E2];
          [exact Hnodup |].
        simpl in E2. unfold scope_dict in H2. rewrite E2 in H2. injection H2 as _ <-.
        apply scope_ext; intros; simpl; solve [rewrite ?app_nil_r; reflexivity | lia].
      * simpl in H2. injection H2 as _ <-. apply scope_ext; intros; simpl; solve [rewrite ?app_nil_r; reflexivity | lia].
    + injection H as _ <-. apply scope_ext; intros; simpl; solve [rewrite ?app_nil_r; reflexivity | lia].
  - pose proof (fun s s' out => run_directory_scope (path_join path name) es s s' out IH) as RD.
    destruct recurse.
    + apply bind_inr in H as (s1 & sub & H1 & H2).
      apply RD in H1. subst sub.
      pose proof (fun Rsub csub =>
                    add_sub_lists_in_order (path_join path "**")
                      (path_join (path_join path name) "**") Rs Rsub c csub
                      [] detectors s1 Hnodup) as E2.
      simpl in E2. unfold scope_dict in H2. rewrite E2 in H2. injection H2 as _ H2.
      rewrite <- H2. reflexivity.
    + injection H as _ <-. apply scope_ext; intros; simpl; solve [rewrite ?app_nil_r; reflexivity | lia].
  - injection H as _ <-. apply scope_ext; intros; simpl; solve [rewrite ?app_nil_r; reflexivity | lia].
Qed.

(** Aggregation cascades through the tree (extra X1): a successful
    [process_directory] returns, for each configured detector in order, the
    accumulator of this directory ([path/**]) holding the responses of every
    decodable [.jpg] of the listing (and, when recursing, of every
    subdirectory), in traversal order, and a count equal to the number of
    those images. Detector class names are assumed distinct. *)
Theorem process_directory_aggregates (path : string) (entries : list fs_entry)
  (s s' : list event) (out : dict)
  (Hrun : process_directory image imread detectors recurse annotate path entries s = (s', inr out)) :
  out = scope path
          (fun dt => List.concat (map (detect image dt) (flat_map (images path) entries)))
          (List.length (flat_map (images path) entries)).
Proof.
  apply (run_directory_scope path entries s s' out); [| exact Hrun].
  apply Forall_forall. intros e _. apply all_entries_ok.
Qed.

End TraversalFacts.

(** *** Shape of the trace *)

Definition extends {A} (m : M A) : Prop :=
  forall s s' r, m s = (s', r) -> exists t, s' = (s ++ t)%list.

Lemma extends_ret {A} (a : A) : extends (ret a).
Proof. intros s s' r H. injection H as <- _. exists []. rewrite app_nil_r. reflexivity. Qed.

Lemma extends_emit (e : event) : extends (emit e).
Proof. intros s s' r H. injection H as <- _. exists [e]. reflexivity. Qed.

Lemma extends_lift {A} (x : exc + A) : extends (lift x).
Proof. intros s s' r H. injection H as <- _. exists []. rewrite app_nil_r. reflexivity. Qed.

Lemma extends_bind {A B} (m : M A) (f : A -> M B) :
  extends m -> (forall a, extends (f a)) -> extends (bind m f).
Proof.
  intros Hm Hf s s' r H. unfold bind in H.
  destruct (m s) as [s1 [e | a]] eqn:E.
  - injection H as <- _. apply (Hm s s1 (inl e) E).
  - destruct (Hm s s1 (inr a) E) as [t1 ->].
    destruct (Hf a _ _ _ H) as [t2 ->]. exists (t1 ++ t2)%list. symmetry. apply app_assoc.
Qed.

Create HintDb extends.
#[local] Hint Resolve extends_ret extends_emit extends_lift extends_bind : extends.

Lemma extends_write_and_add (stats : string) (ds : list Detection) :
  forall dls, extends (write_and_add stats dls ds).
Proof. induction ds; intros dls; simpl; eauto 7 with extends. Qed.

Lemma extends_add_sub_lists (sub : dict) : forall dls, extends (add_sub_lists dls sub).
Proof. induction sub as [| [k l] sub IH]; intros dls; simpl; eauto with extends. Qed.

Lemma extends_write_aggregates (stats : string) (dls : dict) : extends (write_aggregates stats dls).
Proof. induction dls as [| [k l] dls IH]; simpl; eauto 7 with extends. Qed.

Lemma extends_run_detectors (image : Type) (ds : list (detector image)) (img : image)
  (p : string) (annotate : bool) :
  forall acc, extends (run_detectors image ds img p annotate acc).
Proof.
  induction ds; intros acc; simpl; [eauto with extends |].
  apply extends_bind; [auto with extends | intros _].
  apply extends_bind; [destruct annotate; auto with extends | auto].
Qed.

Lemma extends_entry_loop (step : string -> string -> dict -> fs_entry -> M dict)
  (path stats : string) (es : list fs_entry) :
  Forall (fun e => forall p st d, extends (step p st d e)) es ->
  forall dls, extends (entry_loop step path stats dls es).
Proof.
  induction es as [| e es IH]; intros Hes dls; simpl; [auto with extends |].
  apply Forall_cons_iff in Hes as [He Hes]. eauto with extends.
Qed.

Lemma extends_run_directory (image : Type) (detectors : list (detector image))
  (step : string -> string -> dict -> fs_entry -> M dict) (path : string) (es : list fs_entry) :
  Forall (fun e => forall p st d, extends (step p st d e)) es ->
  extends (run_directory image detectors step path es).
Proof.
  intros Hes. unfold run_directory.
  apply extends_bind; [apply extends_emit | intros _].
  apply extends_bind; [apply extends_emit | intros _].
  apply extends_bind; [apply extends_entry_loop, Hes | intros dls].
  apply extends_bind; [apply extends_write_aggregates | intros _].
  apply extends_ret.
Qed.

Lemma extends_process_entry (image : Type) (imread : string -> option image)
  (detectors : list (detector image)) (recurse annotate : bool) (e : fs_entry) :
  forall p st d, extends (process_entry image imread detectors recurse annotate p st d e).
Proof.
  induction e as [name | name es IH | name] using fs_entry_ind'; intros p st d; simpl.
  - destruct (endswith (lower name) ".jpg"); [| auto with extends].
    apply extends_bind; [| intros; apply extends_write_and_add].
    unfold process_image. apply extends_bind; [auto with extends | intros _].
    destruct (imread (path_join p name)); [apply extends_run_detectors |].
    auto with extends.
  - destruct recurse; [| auto with extends].
    apply extends_bind; [| intros; apply extends_add_sub_lists].
    apply extends_run_directory, IH.
  - auto with extends.
Qed.

Lemma write_aggregates_ok (stats : string) (dls : dict) (s s' : list event) (u : unit) :
  write_aggregates stats dls s = (s', inr u) ->
  exists rows, Forall2 (fun kl r => dlist_csv_row (snd kl) = inr r) dls rows /\
               s' = (s ++ map (fun r => EWrite stats (LRow r)) rows)%list.
Proof.
  revert s. induction dls as [| [k l] dls IH]; intros s H; simpl in H.
  - injection H as <- _. exists []. split; [constructor | symmetry; apply app_nil_r].
  - apply bind_inr in H as (s1 & r & H1 & H).
    unfold lift in H1. injection H1 as <- Er.
    apply bind_inr in H as (s2 & u2 & H2 & H). unfold emit in H2. injection H2 as <- _.
    destruct (IH _ H) as [rows [Hf ->]].
    exists (r :: rows). split; [constructor; assumption |].
    simpl. rewrite <- app_assoc. reflexivity.
Qed.

(** Trace of a directory (extra X2): a successful [process_directory]
    opens [path/stats.csv], writes the header, then everything its entries
    do (per-image rows, subdirectory traversals, console output), and ends
    with one aggregate row per returned accumulator, in dict order, to its
    own stats file; nothing follows them. *)
Theorem process_directory_trace (image : Type) (imread : string -> option image)
  (detectors : list (detector image)) (recurse annotate : bool)
  (path : string) (entries : list fs_entry) (s s' : list event) (out : dict)
  (Hrun : process_directory image imread detectors recurse annotate path entries s = (s', inr out)) :
  exists mid rows,
    s' = (s ++ [EOpen (path_join path "stats.csv"); EWrite (path_join path "stats.csv") LHeader]
            ++ mid ++ map (fun r => EWrite (path_join path "stats.csv") (LRow r)) rows)%list /\
    Forall2 (fun kl r => dlist_csv_row (snd kl) = inr r) out rows.
Proof.
  unfold process_directory, run_directory in Hrun.
  apply bind_inr in Hrun as (s1 & u1 & H1 & H).
  unfold emit in H1. injection H1 as <- _.
  apply bind_inr in H as (s2 & u2 & H2 & H).
  unfold emit in H2. injection H2 as <- _.
  apply bind_inr in H as (s3 & dls & H3 & H).
  apply bind_inr in H as (s4 & u4 & H4 & H).
  unfold ret in H. injection H as <- <-.
  assert (Hes : Forall (fun e => forall p st d,
            extends (process_entry image imread detectors recurse annotate p st d e)) entries).
  { apply Forall_forall. intros e _. apply extends_process_entry. }
  destruct (extends_entry_loop _ path (path_join path "stats.csv") entries Hes
              (init_lists image detectors path) _ _ _ H3) as [mid ->].
  destruct (write_aggregates_ok _ _ _ _ _ H4) as [rows [Hf ->]].
  exists mid, rows. split; [| exact Hf].
  rewrite <- !app_assoc. reflexivity.
Qed.

(** A small tree for the witnesses: two detectors, a decodable image at
    the top, a subdirectory with an upper-case [.JPG] and an undecodable
    image, and a file that is not an image. *)
Definition wit_detectors : list (detector unit) :=
  [mk_detector unit "SIFT" (fun _ => [1%R]); mk_detector unit "ORB" (fun _ => [2%R; 3%R])].

Definition wit_imread (p : string) : option unit :=
  if String.eqb p "d/sub/broken.jpg" then None else Some tt.

Definition wit_entries : list fs_entry :=
  [FsFile "a.jpg"; FsDir "sub" [FsFile "b.JPG"; FsFile "broken.jpg"]; FsFile "notes.txt"].

Definition wit_run : list event * (exc + dict) :=
  process_directory unit wit_imread wit_detectors true false "d" wit_entries [].

Definition wit_out : dict :=
  match snd wit_run with inr o => o | inl _ => [] end.

Lemma process_directory_aggregates_witness :
  NoDup (map (@detector_class_name unit) wit_detectors) /\
  wit_run = (fst wit_run, inr wit_out) /\
  wit_out = scope_dict unit wit_detectors "d"
              (fun dt => List.concat (map (detect unit dt)
                 (flat_map (entry_images unit wit_imread true "d") wit_entries)))
              (List.length (flat_map (entry_images unit wit_imread true "d") wit_entries)).
Proof.
  assert (Hn : NoDup (map (@detector_class_name unit) wit_detectors)) by
    (simpl; repeat constructor; simpl; intuition discriminate).
  assert (Hr : wit_run = (fst wit_run, inr wit_out)) by reflexivity.
  split; [exact Hn | split; [exact Hr |]].
  exact (process_directory_aggregates unit wit_imread wit_detectors true false Hn
           "d" wit_entries [] (fst wit_run) wit_out Hr).
Defined.

Lemma process_directory_trace_witness :
  wit_run = (fst wit_run, inr wit_out) /\
  exists mid rows,
    fst wit_run = ([] ++ [EOpen (path_join "d" "stats.csv"); EWrite (path_join "d" "stats.csv") LHeader]
            ++ mid ++ map (fun r => EWrite (path_join "d" "stats.csv") (LRow r)) rows)%list /\
    Forall2 (fun kl r => dlist_csv_row (snd kl) = inr r) wit_out rows.
Proof.
  assert (Hr : wit_run = (fst wit_run, inr wit_out)) by reflexivity.
  split; [exact Hr |].
  exact (process_directory_trace unit wit_imread wit_detectors true false
           "d" wit_entries [] (fst wit_run) wit_out Hr).
Defined.

(** ** Formatting failures *)

(** Which [csv_row] calls raise (extra X3): [Detection.csv_row] never
    raises; [DetectionList.csv_row] raises only [ValueError] (from [min] of
    an empty list), exactly when it counts detections but holds no
    responses. *)
Theorem csv_row_raises_iff (i : item) (e : exc) :
  item_csv_row i = inl e <->
  e = ValueError /\
  (exists l, i = IDList l /\ (0 < num_detections l)%nat /\ dl_responses l = []).
Proof.
  destruct i as [d | l]; simpl.
  - destruct (detection_csv_row_total d) as [r Hr]. rewrite Hr. split.
    + discriminate.
    + intros [_ [l [Hl _]]]. discriminate.
  - unfold dlist_csv_row.
    destruct (Nat.ltb_spec 0 (num_detections l)) as [Hpos | Hz].
    + destruct (dl_responses l) as [| x xs] eqn:Er; simpl.
      * split; [intros H; injection H as <-; eauto |].
        intros [-> _]. reflexivity.
      * split; [discriminate |].
        intros [_ [l' [Hl [_ He]]]]. injection Hl as <-. congruence.
    + split; [discriminate |].
      intros [_ [l' [Hl [Hp _]]]]. injection Hl as <-. lia.
Qed.

(** Adding the accumulator of an empty subdirectory (extra X4): a freshly
    constructed [DetectionList] of the same detector, added to any list,
    leaves that list exactly as it was and raises nothing. *)
Theorem add_fresh_list_identity (self : DetectionList) (p : string) :
  add self (IDList (new_dlist p (dl_detector_name self))) = (self, None).
Proof.
  destruct self as [sp sn sr sc]. unfold add, new_dlist; simpl.
  rewrite String.eqb_refl, app_nil_r, Nat.add_0_r. reflexivity.
Qed.

(** ** Detector selection: [util.get_detectors] and [pipeline.main] *)

(** The OpenCV factory each branch calls. *)
Inductive factory : Type :=
| SIFT_create
| BRISK_create
| ORB_create
| AKAZE_create
| MSER_create
| FastFeatureDetector_create
| SimpleBlobDetector_create
| AgastFeatureDetector_create
| GFTTDetector_create.

Definition factory_eq_dec (x y : factory) : {x = y} + {x <> y}.
Proof. decide equality. Defined.

(** [x in [...]] on strings *)
Definition py_in (x : string) (l : list string) : bool :=
  existsb (String.eqb x) l.

(** [util.get_detectors(detector)]: nine independent tests, each appending
    one detector. *)
Definition get_detectors (detector : string) : list factory :=
  let detectors := [] in
  let detectors := if py_in detector ["SIFT"; "desc"; "all"]
                   then (detectors ++ [SIFT_create])%list else detectors in
  let detectors := if py_in detector ["BRISK"; "desc"; "all"]
                   then (detectors ++ [BRISK_create])%list else detectors in
  let detectors := if py_in detector ["ORB"; "desc"; "all"]
                   then (detectors ++ [ORB_create])%list else detectors in
  let detectors := if py_in detector ["AKAZE"; "desc"; "all"]
                   then (detectors ++ [AKAZE_create])%list else detectors in
  let detectors := if py_in detector ["MSER"; "all"]
                   then (detectors ++ [MSER_create])%list else detectors in
  let detectors := if py_in detector ["FAST"; "all"]
                   then (detectors ++ [FastFeatureDetector_create])%list else detectors in
  let detectors := if py_in detector ["SimpleBlobDetector"; "blob"; "all"]
                   then (detectors ++ [SimpleBlobDetector_create])%list else detectors in
  let detectors := if py_in detector ["AgastFeatureDetector"; "Agast"; "all"]
                   then (detectors ++ [AgastFeatureDetector_create])%list else detectors in
  let detectors := if py_in detector ["GFTTDetector"; "GFTT"; "all"]
                   then (detectors ++ [GFTTDetector_create])%list else detectors in
  detectors.

(** The parsed command line of [pipeline.main]. *)
Record args : Type := mk_args {
  arg_recurse : bool;
  arg_detector : string;
  arg_annotate : bool;
  arg_path : string
}.

(** What [pipeline.main] does after parsing: exit with a message and a
    status, or run [FeaturePipeline(detectors).process_directory]. *)
Inductive main_outcome : Type :=
| MainExit (message : string) (status : nat)
| MainRun (detectors : list factory) (path : string) (recurse annotate : bool).

(** [pipeline.main] after [parse_args], with [os.path.isdir] as [is_dir];
    its selection code is its own copy of the nine tests. *)
Definition main (is_dir : string -> bool) (a : args) : main_outcome :=
  if negb (is_dir (arg_path a)) then
    MainExit ("path must be a directory: " ++ arg_path a) 1
  else
    let detectors := [] in
    let detectors := if py_in (arg_detector a) ["SIFT"; "desc"; "all"]
                     then (detectors ++ [SIFT_create])%list else detectors in
    let detectors := if py_in (arg_detector a) ["BRISK"; "desc"; "all"]
                     then (detectors ++ [BRISK_create])%list else detectors in
    let detectors := if py_in (arg_detector a) ["ORB"; "desc"; "all"]
                     then (detectors ++ [ORB_create])%list else detectors in
    let detectors := if py_in (arg_detector a) ["AKAZE"; "desc"; "all"]
                     then (detectors ++ [AKAZE_create])%list else detectors in
    let detectors := if py_in (arg_detector a) ["MSER"; "all"]
                     then (detectors ++ [MSER_create])%list else detectors in
    let detectors := if py_in (arg_detector a) ["FAST"; "all"]
                     then (detectors ++ [FastFeatureDetector_create])%list else detectors in
    let detectors := if py_in (arg_detector a) ["SimpleBlobDetector"; "blob"; "all"]
                     then (detectors ++ [SimpleBlobDetector_create])%list else detectors in
    let detectors := if py_in (arg_detector a) ["AgastFeatureDetector"; "Agast"; "all"]
                     then (detectors ++ [AgastFeatureDetector_create])%list else detectors in
    let detectors := if py_in (arg_detector a) ["GFTTDetector"; "GFTT"; "all"]
                     then (detectors ++ [GFTTDetector_create])%list else detectors in
    match detectors with
    | [] => MainExit ("Unknown detector: " ++ arg_detector a) 1
    | _ => MainRun detectors (arg_path a) (arg_recurse a) (arg_annotate a)
    end.

(** Every option string some test of the selection mentions. *)
Definition known_options : list string :=
  ["SIFT"; "BRISK"; "ORB"; "AKAZE"; "MSER"; "FAST"; "SimpleBlobDetector"; "blob";
   "AgastFeatureDetector"; "Agast"; "GFTTDetector"; "GFTT"; "desc"; "all"].

(** The options a factory is selected by, read off its test. *)
Definition factory_options (f : factory) : list string :=
  match f with
  | SIFT_create => ["SIFT"; "desc"; "all"]
  | BRISK_create => ["BRISK"; "desc"; "all"]
  | ORB_create => ["ORB"; "desc"; "all"]
  | AKAZE_create => ["AKAZE"; "desc"; "all"]
  | MSER_create => ["MSER"; "all"]
  | FastFeatureDetector_create => ["FAST"; "all"]
  | SimpleBlobDetector_create => ["SimpleBlobDetector"; "blob"; "all"]
  | AgastFeatureDetector_create => ["AgastFeatureDetector"; "Agast"; "all"]
  | GFTTDetector_create => ["GFTTDetector"; "GFTT"; "all"]
  end.

Definition all_factories : list factory :=
  [SIFT_create; BRISK_create; ORB_create; AKAZE_create; MSER_create;
   FastFeatureDetector_create; SimpleBlobDetector_create;
   AgastFeatureDetector_create; GFTTDetector_create].

Lemma get_detectors_filter (d : string) :
  get_detectors d = filter (fun f => py_in d (factory_options f)) all_factories.
Proof.
  unfold get_detectors, all_factories. cbv zeta. cbn [filter factory_options].
  destruct (py_in d ["SIFT"; "desc"; "all"]), (py_in d ["BRISK"; "desc"; "all"]),
    (py_in d ["ORB"; "desc"; "all"]), (py_in d ["AKAZE"; "desc"; "all"]),
    (py_in d ["MSER"; "all"]), (py_in d ["FAST"; "all"]),
    (py_in d ["SimpleBlobDetector"; "blob"; "all"]),
    (py_in d ["AgastFeatureDetector"; "Agast"; "all"]),
    (py_in d ["GFTTDetector"; "GFTT"; "all"]); reflexivity.
Qed.

Lemma main_selection (is_dir : string -> bool) (a : args) :
  main is_dir a =
  if negb (is_dir (arg_path a)) then
    MainExit ("path must be a directory: " ++ arg_path a) 1
  else
    match get_detectors (arg_detector a) with
    | [] => MainExit ("Unknown detector: " ++ arg_detector a) 1
    | ds => MainRun ds (arg_path a) (arg_recurse a) (arg_annotate a)
    end.
Proof.
  unfold main. destruct (negb (is_dir (arg_path a))); [reflexivity |].
  change (let detectors := get_detectors (arg_detector a) in
          match detectors with
          | [] => MainExit ("Unknown detector: " ++ arg_detector a) 1
          | _ => MainRun detectors (arg_path a) (arg_recurse a) (arg_annotate a)
          end =
          match get_detectors (arg_detector a) with
          | [] => MainExit ("Unknown detector: " ++ arg_detector a) 1
          | ds => MainRun ds (arg_path a) (arg_recurse a) (arg_annotate a)
          end).
  cbv zeta. destruct (get_detectors (arg_detector a)); reflexivity.
Qed.

Lemma py_in_true (x : string) (l : list string) : py_in x l = true <-> In x l.
Proof.
  unfold py_in. rewrite existsb_exists. split.
  - intros [y [Hy E]]. apply String.eqb_eq in E. subst. exact Hy.
  - intros H. exists x. split; [exact H | apply String.eqb_refl].
Qed.

Lemma factory_options_known (f : factory) : incl (factory_options f) known_options.
Proof. destruct f; intros x Hx; simpl in *; tauto. Qed.

Lemma filter_all_false {A} (f : A -> bool) (l : list A) :
  (forall x, In x l -> f x = false) -> filter f l = [].
Proof.
  induction l as [| x l IH]; intros H; simpl; [reflexivity |].
  rewrite (H x (or_introl eq_refl)). apply IH. intros y Hy. apply H. right. exact Hy.
Qed.

Lemma get_detectors_nil_iff (d : string) : get_detectors d = [] <-> ~ In d known_options.
Proof.
  rewrite get_detectors_filter. split.
  - intros H Hin. simpl in Hin.
    repeat destruct Hin as [<- | Hin]; try discriminate; contradiction.
  - intros Hn. apply filter_all_false. intros f _.
    destruct (py_in d (factory_options f)) eqn:E; [| reflexivity].
    apply py_in_true, factory_options_known in E. contradiction.
Qed.

(** Unknown options (extra X5): [get_detectors] returns an empty list
    exactly for the strings none of its tests mention, so [main] exits with
    ["Unknown detector: ..."] and status 1 exactly then (when the path is a
    directory). *)
Theorem get_detectors_empty_iff_unknown (d : string) :
  (get_detectors d = [] <-> ~ In d known_options) /\
  (forall is_dir a, is_dir (arg_path a) = true -> arg_detector a = d ->
     (main is_dir a = MainExit ("Unknown detector: " ++ d) 1 <-> ~ In d known_options)).
Proof.
  split; [apply get_detectors_nil_iff |].
  intros is_dir a Hdir Hd. rewrite main_selection, Hdir, Hd. cbn [negb].
  rewrite <- get_detectors_nil_iff.
  destruct (get_detectors d); split; intros H; congruence.
Qed.

(** Shape of a selection (extra X6): [get_detectors] never selects a
    detector twice, and the detectors it selects come in the order of the
    [all] selection. *)
Theorem get_detectors_nodup_ordered (d : string) :
  NoDup (get_detectors d) /\
  get_detectors d =
    filter (fun f => if in_dec factory_eq_dec f (get_detectors d) then true else false)
           (get_detectors "all").
Proof.
  assert (Hall : get_detectors "all" = all_factories) by reflexivity.
  split.
  - rewrite get_detectors_filter. apply NoDup_filter.
    unfold all_factories. repeat constructor; simpl; intuition discriminate.
  - rewrite Hall. rewrite (get_detectors_filter d) at 1.
    apply filter_ext_in. intros f Hf.
    destruct (in_dec factory_eq_dec f (get_detectors d)) as [Hin | Hnin];
      rewrite get_detectors_filter in Hin || rewrite get_detectors_filter in Hnin.
    + apply filter_In in Hin. exact (proj2 Hin).
    + destruct (py_in d (factory_options f)) eqn:E; [| reflexivity].
      exfalso. apply Hnin. apply filter_In. auto.
Qed.

(** Single-detector options (extra X7): apart from ["desc"] and ["all"],
    every option selects at most one detector. *)
Theorem get_detectors_single (d : string) (Hdesc : d <> "desc") (Hall : d <> "all") :
  (List.length (get_detectors d) <= 1)%nat.
Proof.
  destruct (in_dec string_dec d known_options) as [Hin | Hn].
  - simpl in Hin.
    repeat destruct Hin as [<- | Hin]; try contradiction; vm_compute; lia.
  - apply get_detectors_nil_iff in Hn. rewrite Hn. simpl. lia.
Qed.

Lemma get_detectors_single_witness :
  "ORB" <> "desc" /\ "ORB" <> "all" /\ (List.length (get_detectors "ORB") <= 1)%nat.
Proof.
  assert (H1 : "ORB" <> "desc") by discriminate.
  assert (H2 : "ORB" <> "all") by discriminate.
  split; [exact H1 | split; [exact H2 | exact (get_detectors_single "ORB" H1 H2)]].
Defined.

(** What [main] runs (extra X8): it reaches the pipeline exactly when the
    path is a directory and the option is known, and then with the same
    detectors, in the same order, as [util.get_detectors] selects for that
    option; its own copy of the selection never diverges from it. *)
Theorem main_runs_iff (is_dir : string -> bool) (a : args) :
  ((exists ds, main is_dir a = MainRun ds (arg_path a) (arg_recurse a) (arg_annotate a)) <->
   is_dir (arg_path a) = true /\ In (arg_detector a) known_options) /\
  (forall ds p r an, main is_dir a = MainRun ds p r an ->
     ds = get_detectors (arg_detector a) /\ p = arg_path a /\ r = arg_recurse a /\
     an = arg_annotate a).
Proof.
  rewrite main_selection.
  pose proof (get_detectors_nil_iff (arg_detector a)) as Hnil.
  destruct (is_dir (arg_path a)); simpl.
  - destruct (get_detectors (arg_detector a)) as [| f fs] eqn:E.
    + split.
      * split; [intros [ds H]; discriminate | intros [_ Hin]; destruct (proj1 Hnil eq_refl Hin)].
      * intros ds p r an H; discriminate.
    + split.
      * split; [intros _; split; [reflexivity |] | intros _; eauto].
        destruct (in_dec string_dec (arg_detector a) known_options) as [Hin | Hn];
          [exact Hin |]. apply Hnil in Hn. discriminate.
      * intros ds p r an H. injection H as <- <- <- <-. auto.
  - split.
    + split; [intros [ds H]; discriminate | intros [H _]; discriminate].
    + intros ds p r an H; discriminate.
Qed.

(** ** scripts/features.py *)

(** [str.split(sep)] for a one-character separator. *)
Fixpoint py_split (sep : ascii) (s : string) : list string :=
  match s with
  | EmptyString => [EmptyString]
  | String c rest =>
      if Ascii.eqb c sep then EmptyString :: py_split sep rest
      else match py_split sep rest with
           | [] => [String c EmptyString]
           | w :: ws => String c w :: ws
           end
  end.

(** [c in s] for a character. *)
Fixpoint has_char (c : ascii) (s : string) : bool :=
  match s with
  | EmptyString => false
  | String c' rest => Ascii.eqb c' c || has_char c rest
  end.

(** [pathlib.PurePosixPath(s).parts] without the anchor: empty components
    and ["."] are dropped; the anchor never changes [name] or
    [parent.name], the only attributes used here. *)
Definition path_parts (s : string) : list string :=
  filter (fun c => negb (String.eqb c "") && negb (String.eqb c ".")) (py_split "/" s).

(** [Path.name] and [Path.parent] on the parts. *)
Definition pp_name (parts : list string) : string := last parts "".
Definition pp_parent (parts : list string) : list string := removelast parts.

(** [str(n)] and [int(s)] for non-negative integers in decimal. *)
Definition py_str (n : nat) : string := DecimalString.NilZero.string_of_uint (Nat.to_uint n).
Definition py_int (s : string) : option nat :=
  option_map Nat.of_uint (DecimalString.NilZero.uint_of_string s).

Definition newline : string := String (ascii_of_nat 10) EmptyString.

(** What [SimplePipeline] does to the results file and the console. *)
Inductive fevent : Type :=
| FWrite (s : string)
| FPrint (s : string).

(** The contents of the results file after a trace. *)
Definition file_text (tr : list fevent) : string :=
  fold_right (fun e acc => match e with FWrite s => s ++ acc | FPrint _ => acc end) "" tr.

(** A name [os.scandir] can report: not empty, not ["."], no ['/']. *)
Definition valid_name (n : string) : bool :=
  negb (String.eqb n "") && negb (String.eqb n ".") && negb (has_char "/" n).

Module SimplePipeline.
Section Simple.
Variable image : Type.
Variable imread : string -> option image.
Variable detectors : list (detector image).

(** [write_csv_header] *)
Definition write_csv_header : list fevent :=
  [FWrite "image,patch"] ++
  map (fun dt => FWrite ("," ++ detector_class_name image dt)) detectors ++
  [FWrite newline].

(** [write_csv_row(path, feature_counts)] *)
Definition write_csv_row (path : string) (feature_counts : list nat) : list fevent :=
  let file_name := pp_name (path_parts path) in
  let patch_name := pp_name (pp_parent (path_parts path)) in
  [FWrite (file_name ++ "," ++ patch_name)] ++
  map (fun c => FWrite ("," ++ py_str c)) feature_counts ++
  [FWrite newline].

(** [process_image(image_path)] *)
Definition process_image (image_path : string) : list fevent :=
  FPrint ("Open " ++ image_path) ::
  match imread image_path with
  | None => [FPrint ("Failed to load image: " ++ image_path)]
  | Some img =>
      write_csv_row image_path
        (map (fun dt => List.length (detect image dt img)) detectors)
  end.

(** [process_directory(path)]: the files of [path] only. *)
Definition process_directory (path : string) (entries : list fs_entry) : list fevent :=
  flat_map (fun e => match e with
                     | FsFile name =>
                         if endswith (lower name) ".jpg"
                         then process_image (path_join path name) else []
                     | _ => []
                     end) entries.

(** [run()]: each subdirectory of the training directory [train]. *)
Definition run (train : string) (entries : list fs_entry) : list fevent :=
  flat_map (fun e => match e with
                     | FsDir name es => process_directory (path_join train name) es
                     | _ => []
                     end) entries.

(** [SimplePipeline(detectors).run()]: the constructor writes the header. *)
Definition main (train : string) (entries : list fs_entry) : list fevent :=
  write_csv_header ++ run train entries.

End Simple.
End SimplePipeline.

(** [''.join(parts)] *)
Definition str_concat (l : list string) : string := fold_right append "" l.

(** Every name the results file takes from the tree is one [os.scandir]
    can report: the subdirectories of the training directory and the files
    in them. *)
Definition simple_names_ok (entries : list fs_entry) : bool :=
  forallb (fun e => match e with
                    | FsDir d es =>
                        valid_name d &&
                        forallb (fun e' => match e' with
                                           | FsFile f => valid_name f
                                           | _ => true
                                           end) es
                    | _ => true
                    end) entries.

(** The images whose rows reach the results file: each decodable [.jpg]
    directly inside a subdirectory of [train], as (subdirectory, file name,
    decoded image), in listing order. *)
Definition simple_images (image : Type) (imread : string -> option image)
    (train : string) (entries : list fs_entry) : list (string * string * image) :=
  flat_map (fun e => match e with
     | FsDir d es =>
         flat_map (fun e' => match e' with
            | FsFile f =>
                if endswith (lower f) ".jpg" then
                  match imread (path_join (path_join train d) f) with
                  | Some img => [(d, f, img)]
                  | None => []
                  end
                else []
            | _ => []
            end) es
     | _ => []
     end) entries.

Lemma str_app_assoc (a b c : string) : (a ++ b) ++ c = a ++ (b ++ c).
Proof. induction a as [| x a IH]; simpl; [reflexivity | rewrite IH; reflexivity]. Qed.

Lemma str_app_nil_r (a : string) : a ++ "" = a.
Proof. induction a as [| x a IH]; simpl; [reflexivity | rewrite IH; reflexivity]. Qed.

Lemma file_text_app (t1 t2 : list fevent) :
  file_text (t1 ++ t2) = file_text t1 ++ file_text t2.
Proof.
  induction t1 as [| [s | s] t1 IH]; simpl; [reflexivity | |].
  - rewrite IH, str_app_assoc. reflexivity.
  - exact IH.
Qed.

Lemma file_text_flat_map {A} (f : A -> list fevent) (l : list A) :
  file_text (flat_map f l) = str_concat (map (fun x => file_text (f x)) l).
Proof.
  induction l as [| x l IH]; simpl; [reflexivity |].
  rewrite file_text_app, IH. reflexivity.
Qed.

Lemma file_text_writes {A} (h : A -> string) (l : list A) :
  file_text (map (fun x => FWrite (h x)) l) = str_concat (map h l).
Proof. induction l as [| x l IH]; simpl; [reflexivity | rewrite IH; reflexivity]. Qed.

Lemma str_concat_app (l1 l2 : list string) :
  str_concat (l1 ++ l2) = str_concat l1 ++ str_concat l2.
Proof.
  induction l1 as [| x l1 IH]; simpl; [reflexivity |].
  rewrite IH, str_app_assoc. reflexivity.
Qed.

Lemma str_concat_flat_map {A B} (g : A -> list B) (h : B -> string) (l : list A) :
  str_concat (map h (flat_map g l)) = str_concat (map (fun x => str_concat (map h (g x))) l).
Proof.
  induction l as [| x l IH]; simpl; [reflexivity |].
  rewrite map_app, str_concat_app, IH. reflexivity.
Qed.

Lemma py_split_nonnil (sep : ascii) (s : string) : py_split sep s <> [].
Proof.
  destruct s as [| c s]; simpl; [discriminate |].
  destruct (Ascii.eqb c sep); [discriminate |].
  destruct (py_split sep s); discriminate.
Qed.

Lemma py_split_app (sep : ascii) (a b : string) :
  py_split sep (a ++ String sep b) = (py_split sep a ++ py_split sep b)%list.
Proof.
  induction a as [| c a IH]; simpl.
  - rewrite Ascii.eqb_refl. reflexivity.
  - destruct (Ascii.eqb c sep); rewrite IH; [reflexivity |].
    destruct (py_split sep a) as [| w ws] eqn:E;
      [exfalso; exact (py_split_nonnil sep a E) | reflexivity].
Qed.

Lemma py_split_nosep (sep : ascii) (a : string) :
  has_char sep a = false -> py_split sep a = [a].
Proof.
  induction a as [| c a IH]; simpl; [reflexivity |].
  intros H. apply orb_false_iff in H as [Hc Ha].
  rewrite Hc, (IH Ha). reflexivity.
Qed.

Lemma ends_with_char_split (c : ascii) (s : string) :
  ends_with_char c s = true -> exists a0, s = a0 ++ String c "".
Proof.
  induction s as [| x s IH]; [discriminate |].
  destruct s as [| y s].
  - unfold ends_with_char. simpl. intros H.
    apply Ascii.eqb_eq in H. subst. exists "". reflexivity.
  - intros H.
    assert (H' : ends_with_char c (String y s) = true) by exact H.
    destruct (IH H') as [a0 E]. exists (String x a0). rewrite E. reflexivity.
Qed.

Lemma path_parts_app_sep (a b : string) :
  path_parts (a ++ String "/" b) = (path_parts a ++ path_parts b)%list.
Proof. unfold path_parts. rewrite py_split_app, filter_app. reflexivity. Qed.

Lemma path_parts_join (a b : string) :
  path_parts (path_join a b) = (path_parts a ++ path_parts b)%list.
Proof.
  unfold path_join.
  destruct (String.eqb_spec a "") as [-> | Ha]; [reflexivity |].
  destruct (ends_with_char "/" a) eqn:E.
  - apply ends_with_char_split in E as [a0 ->].
    rewrite str_app_assoc. simpl.
    rewrite !path_parts_app_sep. unfold path_parts at 3. simpl.
    rewrite app_nil_r. reflexivity.
  - apply path_parts_app_sep.
Qed.

Lemma path_parts_valid (n : string) : valid_name n = true -> path_parts n = [n].
Proof.
  unfold valid_name. intros H.
  apply andb_true_iff in H as [H Hs]. apply andb_true_iff in H as [He Hd].
  apply negb_true_iff in He, Hd, Hs.
  unfold path_parts. rewrite (py_split_nosep _ _ Hs). simpl. rewrite He, Hd. reflexivity.
Qed.

Lemma str_concat_commas (c : ascii) (y : string) (ns : list string) :
  has_char c y = false -> Forall (fun n => has_char c n = false) ns ->
  py_split c (y ++ str_concat (map (String c) ns)) = y :: ns.
Proof.
  revert y. induction ns as [| n ns IH]; intros y Hy Hns; simpl.
  - rewrite str_app_nil_r. apply py_split_nosep, Hy.
  - apply Forall_cons_iff in Hns as [Hn Hns].
    rewrite py_split_app, (py_split_nosep _ _ Hy), (IH n Hn Hns). reflexivity.
Qed.

Lemma string_of_uint_no_comma (d : Decimal.uint) :
  has_char "," (DecimalString.NilEmpty.string_of_uint d) = false.
Proof. induction d; simpl; try rewrite IHd; reflexivity. Qed.

Lemma py_str_no_comma (n : nat) : has_char "," (py_str n) = false.
Proof.
  unfold py_str, DecimalString.NilZero.string_of_uint.
  destruct (Nat.to_uint n); try reflexivity; apply string_of_uint_no_comma.
Qed.

Lemma to_uint_not_nil (n : nat) : Nat.to_uint n <> Decimal.Nil.
Proof.
  intros H. pose proof (DecimalNat.Unsigned.of_to n) as E.
  rewrite H in E. simpl in E. subst n. discriminate H.
Qed.

(** The results file of [features.py] (extra X9): it holds the header and
    then one row per decodable [.jpg] (any letter case) directly inside a
    subdirectory of the training directory, in listing order; the row
    starts with the file's name and its subdirectory's name and gives
    [len(detector.detect(image))] for each detector. Console messages, files
    at the top level, deeper subdirectories, other files and undecodable
    images add nothing to it. *)
Theorem simple_results_file (image : Type) (imread : string -> option image)
  (detectors : list (detector image)) (train : string) (entries : list fs_entry)
  (Hnames : simple_names_ok entries = true) :
  file_text (SimplePipeline.main image imread detectors train entries) =
  file_text (SimplePipeline.write_csv_header image detectors) ++
  str_concat (map (fun '(d, f, img) =>
      f ++ "," ++ d ++
      str_concat (map (fun dt => "," ++ py_str (List.length (detect image dt img))) detectors) ++
      newline)
    (simple_images image imread train entries)).
Proof.
  unfold SimplePipeline.main. rewrite file_text_app. f_equal.
  unfold SimplePipeline.run, simple_images.
  rewrite file_text_flat_map, str_concat_flat_map. f_equal.
  apply map_ext_in. intros e He.
  unfold simple_names_ok in Hnames. rewrite forallb_forall in Hnames.
  specialize (Hnames e He).
  destruct e as [f | d es | o]; [reflexivity | | reflexivity].
  apply andb_true_iff in Hnames as [Hd Hes]. rewrite forallb_forall in Hes.
  unfold SimplePipeline.process_directory.
  rewrite file_text_flat_map, str_concat_flat_map. f_equal.
  apply map_ext_in. intros e' He'. specialize (Hes e' He').
  destruct e' as [f | d' es' | o]; [| reflexivity | reflexivity].
  destruct (endswith (lower f) ".jpg"); [| reflexivity].
  unfold SimplePipeline.process_image. simpl.
  destruct (imread (path_join (path_join train d) f)) as [img |]; [| reflexivity].
  unfold SimplePipeline.write_csv_row.
  rewrite !path_parts_join, (path_parts_valid d Hd), (path_parts_valid f Hes).
  unfold pp_name, pp_parent.
  replace (path_parts train ++ [d] ++ [f])%list with ((path_parts train ++ [d]) ++ [f])%list
    by (symmetry; apply app_assoc).
  rewrite last_last, removelast_last, last_last.
  rewrite !file_text_app, map_map, file_text_writes. simpl.
  rewrite !str_app_nil_r, !str_app_assoc. simpl. reflexivity.
Qed.

(** The results file reads back as a table (extra X10): with class names
    free of commas, splitting the header line at commas gives [image],
    [patch] and the class names; splitting a row line, when the file and
    patch names are free of commas, gives those names and one cell per
    count, and [int()] of each count cell gives the count back. *)
Theorem simple_csv_round_trip (image : Type) (detectors : list (detector image))
  (Hclass : forallb (fun dt => negb (has_char "," (detector_class_name image dt))) detectors = true) :
  (exists h, file_text (SimplePipeline.write_csv_header image detectors) = h ++ newline /\
             py_split "," h = "image" :: "patch" :: map (detector_class_name image) detectors) /\
  (forall path counts,
     has_char "," (pp_name (path_parts path)) = false ->
     has_char "," (pp_name (pp_parent (path_parts path))) = false ->
     exists r, file_text (SimplePipeline.write_csv_row path counts) = r ++ newline /\
       py_split "," r = pp_name (path_parts path) :: pp_name (pp_parent (path_parts path))
                        :: map py_str counts) /\
  (forall n, py_int (py_str n) = Some n).
Proof.
  split; [| split].
  - exists ("image,patch" ++ str_concat (map (String ",") (map (detector_class_name image) detectors))).
    split.
    + unfold SimplePipeline.write_csv_header. rewrite !file_text_app, map_map.
      rewrite (file_text_writes (fun dt => "," ++ detector_class_name image dt)). simpl.
      rewrite ?str_app_nil_r, ?str_app_assoc. reflexivity.
    + change ("image,patch" ++ ?r) with ("image" ++ String "," ("patch" ++ r)).
      rewrite py_split_app. simpl py_split at 1.
      rewrite str_concat_commas; [reflexivity | reflexivity |].
      apply Forall_forall. intros n Hn. apply in_map_iff in Hn as [dt [<- Hdt]].
      rewrite forallb_forall in Hclass. apply negb_true_iff, Hclass, Hdt.
  - intros path counts Hf Hp.
    exists (pp_name (path_parts path) ++ "," ++ pp_name (pp_parent (path_parts path)) ++
            str_concat (map (String ",") (map py_str counts))).
    split.
    + unfold SimplePipeline.write_csv_row. rewrite !file_text_app, map_map.
      rewrite (file_text_writes (fun c => "," ++ py_str c)). simpl.
      rewrite ?str_app_nil_r, ?str_app_assoc. simpl. rewrite ?str_app_assoc. reflexivity.
    + change ("," ++ ?r) with (String "," r).
      rewrite py_split_app, (py_split_nosep _ _ Hf).
      rewrite str_concat_commas; [reflexivity | exact Hp |].
      apply Forall_forall. intros s Hs. apply in_map_iff in Hs as [c [<- _]].
      apply py_str_no_comma.
  - intros n. unfold py_int, py_str.
    rewrite DecimalString.NilZero.usu by apply to_uint_not_nil. simpl.
    rewrite DecimalNat.Unsigned.of_to. reflexivity.
Qed.

(** A training directory for the witnesses: a stray top-level image, two
    patch directories, an upper-case extension, a non-image file and a
    nested directory. *)
Definition wit_train_entries : list fs_entry :=
  [FsFile "top.jpg";
   FsDir "BR_fucus" [FsFile "x.JPG"; FsFile "y.png"; FsDir "deep" [FsFile "w.jpg"]];
   FsDir "BR_encrust" [FsFile "z.jpg"]].

Lemma simple_results_file_witness :
  simple_names_ok wit_train_entries = true /\
  file_text (SimplePipeline.main unit (fun _ => Some tt) wit_detectors "train/" wit_train_entries) =
  file_text (SimplePipeline.write_csv_header unit wit_detectors) ++
  str_concat (map (fun '(d, f, img) =>
      f ++ "," ++ d ++
      str_concat (map (fun dt => "," ++ py_str (List.length (detect unit dt img))) wit_detectors) ++
      newline)
    (simple_images unit (fun _ => Some tt) "train/" wit_train_entries)).
Proof.
  assert (H : simple_names_ok wit_train_entries = true) by reflexivity.
  split; [exact H |].
  exact (simple_results_file unit (fun _ => Some tt) wit_detectors "train/" wit_train_entries H).
Defined.

Lemma simple_csv_round_trip_witness :
  forallb (fun dt => negb (has_char "," (detector_class_name unit dt))) wit_detectors = true /\
  (exists h, file_text (SimplePipeline.write_csv_header unit wit_detectors) = h ++ newline /\
             py_split "," h = "image" :: "patch" :: map (detector_class_name unit) wit_detectors).
Proof.
  assert (H : forallb (fun dt => negb (has_char "," (detector_class_name unit dt)))
                wit_detectors = true) by reflexivity.
  split; [exact H |].
  exact (proj1 (simple_csv_round_trip unit wit_detectors H)).
Defined.

(** ** [output_path] (scripts/pipeline.py) *)

(** The text before and after the last ['.'] of a string, if any. *)
Fixpoint last_dot (s : string) : option (string * string) :=
  match s with
  | EmptyString => None
  | String c rest =>
      match last_dot rest with
      | Some (b, a) => Some (String c b, a)
      | None => if Ascii.eqb c "." then Some (EmptyString, rest) else None
      end
  end.

(** [PurePath.stem] of a name: [i = name.rfind('.')]; [name[:i]] when
    [0 < i < len(name) - 1], else the whole name. *)
Definition path_stem (name : string) : string :=
  match last_dot name with
  | Some (b, a) =>
      if negb (String.eqb b "") && negb (String.eqb a "") then b else name
  | None => name
  end.

(** The anchor of a POSIX path: [//] kept as is, any other run of leading
    slashes collapsed to [/]. *)
Definition path_anchor (s : string) : string :=
  if String.prefix "///" s then "/"
  else if String.prefix "//" s then "//"
  else if String.prefix "/" s then "/"
  else "".

(** [str(path)] from its anchor and parts. *)
Definition path_str (anchor : string) (parts : list string) : string :=
  match anchor, parts with
  | EmptyString, [] => "."
  | _, _ => anchor ++ String.concat "/" parts
  end.

(** [output_path(input_path, suffix, ext)]:
    [str(path.parent / f"{path.stem}_{suffix}.{ext}")]; the joined name
    is relative (it starts with the stem or with ['_']), so [/] appends
    its parts. *)
Definition output_path (input_path suffix ext : string) : string :=
  let parts := path_parts input_path in
  let stem := path_stem (pp_name parts) in
  path_str (path_anchor input_path)
           (pp_parent parts ++ path_parts (stem ++ "_" ++ suffix ++ "." ++ ext))%list.

Lemma last_dot_split (s b a : string) : last_dot s = Some (b, a) -> s = b ++ String "." a.
Proof.
  revert b a. induction s as [| c s IH]; intros b a; simpl; [discriminate |].
  destruct (last_dot s) as [[b' a'] |] eqn:E.
  - intros H. injection H as <- <-. rewrite (IH b' a' eq_refl). reflexivity.
  - destruct (Ascii.eqb_spec c "."); [| discriminate].
    intros H. injection H as <- <-. subst. reflexivity.
Qed.

Lemma path_stem_prefix (name : string) :
  exists rest, name = path_stem name ++ rest /\
               (rest = "" \/ exists r, rest = String "." r).
Proof.
  unfold path_stem. destruct (last_dot name) as [[b a] |] eqn:E.
  - destruct (negb (b =? "") && negb (a =? "")).
    + exists (String "." a). split; [apply last_dot_split, E | eauto].
    + exists "". rewrite str_app_nil_r. auto.
  - exists "". rewrite str_app_nil_r. auto.
Qed.

Lemma has_char_app (c : ascii) (a b : string) :
  has_char c (a ++ b) = has_char c a || has_char c b.
Proof.
  induction a as [| x a IH]; simpl; [reflexivity |].
  rewrite IH, orb_assoc. reflexivity.
Qed.

Lemma py_split_no_sep_in (c : ascii) (s x : string) :
  In x (py_split c s) -> has_char c x = false.
Proof.
  revert x. induction s as [| y s IH]; intros x; simpl.
  - intros [<- | []]. reflexivity.
  - destruct (Ascii.eqb_spec y c) as [-> | Hne].
    + intros [<- | Hx]; [reflexivity | exact (IH x Hx)].
    + destruct (py_split c s) as [| w ws] eqn:E.
      * intros [<- | []]. simpl.
        destruct (Ascii.eqb_spec y c); [contradiction | reflexivity].
      * intros [<- | Hx]; [| apply IH; right; exact Hx].
        simpl. destruct (Ascii.eqb_spec y c); [contradiction |].
        apply IH. left. reflexivity.
Qed.

Lemma path_parts_valid_all (s : string) : Forall (fun x => valid_name x = true) (path_parts s).
Proof.
  apply Forall_forall. intros x Hx. unfold path_parts in Hx.
  apply filter_In in Hx as [Hx Hk].
  apply andb_true_iff in Hk as [He Hd].
  unfold valid_name. rewrite He, Hd, (py_split_no_sep_in _ _ _ Hx). reflexivity.
Qed.

Lemma path_parts_concat (parts : list string) :
  Forall (fun x => valid_name x = true) parts ->
  path_parts (String.concat "/" parts) = parts.
Proof.
  induction parts as [| x [| y l] IH]; intros H; [reflexivity | |].
  - apply Forall_cons_iff in H as [Hx _]. apply path_parts_valid, Hx.
  - apply Forall_cons_iff in H as [Hx Hl].
    change (String.concat "/" (x :: y :: l)) with (x ++ String "/" (String.concat "/" (y :: l))).
    rewrite path_parts_app_sep, (path_parts_valid x Hx), (IH Hl). reflexivity.
Qed.

Lemma path_parts_slash (s : string) : path_parts (String "/" s) = path_parts s.
Proof. reflexivity. Qed.

Lemma path_parts_str (s : string) (parts : list string) :
  Forall (fun x => valid_name x = true) parts ->
  path_parts (path_str (path_anchor s) parts) = parts.
Proof.
  intros H. unfold path_anchor.
  destruct (String.prefix "///" s), (String.prefix "//" s), (String.prefix "/" s);
    unfold path_str; simpl; try apply path_parts_concat, H;
    destruct parts; try reflexivity; apply path_parts_concat, H.
Qed.

Lemma lower_app (a b : string) : lower (a ++ b) = lower a ++ lower b.
Proof. induction a as [| x a IH]; simpl; [reflexivity | rewrite IH; reflexivity]. Qed.

Lemma substring_app_length (x y : string) (m : nat) :
  substring (String.length x) m (x ++ y) = substring 0 m y.
Proof. induction x as [| c x IH]; simpl; [reflexivity | exact IH]. Qed.

Lemma str_length_app (x y : string) :
  String.length (x ++ y) = (String.length x + String.length y)%nat.
Proof. induction x as [| c x IH]; simpl; [reflexivity | rewrite IH; reflexivity]. Qed.

Lemma endswith_app (x y : string) : endswith (x ++ y) y = true.
Proof.
  unfold endswith. rewrite str_length_app.
  replace (String.length x + String.length y - String.length y)%nat with (String.length x) by lia.
  rewrite substring_app_length.
  assert (Hs : forall z, substring 0 (String.length z) z = z).
  { induction z as [| c z IHz]; simpl; [reflexivity | rewrite IHz; reflexivity]. }
  rewrite Hs, String.eqb_refl, andb_true_r. apply Nat.leb_le. lia.
Qed.

Lemma in_removelast_in {A} (x : A) (l : list A) : In x (removelast l) -> In x l.
Proof.
  induction l as [| y [| z l] IH]; simpl; [auto | intros [] |].
  intros [-> | Hx]; [left; reflexivity | right; apply IH, Hx].
Qed.

(** Where the annotated images go (extra X11): for a detector name free of
    ['/'], the file [process_image] writes for it lies in the source
    image's directory, never has the source image's name (so it never
    overwrites it), and has a name ending in [.jpg] in any letter case, so
    a later run of [process_directory] over that directory takes it for an
    input image. *)
Theorem annotation_output_path (input_path detector_name : string)
  (Hname : has_char "/" detector_name = false) :
  let q := path_parts (output_path input_path ("_" ++ detector_name) "jpg") in
  pp_parent q = pp_parent (path_parts input_path) /\
  pp_name q <> pp_name (path_parts input_path) /\
  endswith (lower (pp_name q)) ".jpg" = true.
Proof.
  set (parts := path_parts input_path).
  set (name := pp_name parts).
  set (stem := path_stem name).
  set (newname := stem ++ "_" ++ ("_" ++ detector_name) ++ "." ++ "jpg").
  destruct (path_stem_prefix name) as [rest [Hrest Hdot]]. fold stem in Hrest.
  assert (Hall : Forall (fun x => valid_name x = true) parts) by apply path_parts_valid_all.
  assert (Hnm : has_char "/" name = false).
  { unfold name, pp_name.
    destruct parts as [| p ps] eqn:Ep using rev_ind; [reflexivity |].
    rewrite last_last. apply Forall_app in Hall as [_ Hp].
    apply Forall_cons_iff in Hp as [Hp _].
    unfold valid_name in Hp. apply andb_true_iff in Hp as [_ Hp].
    apply negb_true_iff, Hp. }
  assert (Hst : has_char "/" stem = false).
  { rewrite Hrest, has_char_app in Hnm. apply orb_false_iff in Hnm. apply Hnm. }
  assert (Hvalid : valid_name newname = true).
  { unfold valid_name, newname.
    assert (Hlen : (2 <= String.length (stem ++ "_" ++ ("_" ++ detector_name) ++ "." ++ "jpg"))%nat).
    { rewrite !str_length_app. simpl. lia. }
    assert (Hne : forall z, (2 <= String.length z)%nat -> String.eqb z "" = false /\ String.eqb z "." = false).
    { intros z Hz. split; apply String.eqb_neq; intros ->; simpl in Hz; lia. }
    destruct (Hne _ Hlen) as [-> ->].
    rewrite !has_char_app, Hst, Hname. reflexivity. }
  assert (Hq : path_parts (output_path input_path ("_" ++ detector_name) "jpg") =
               (pp_parent parts ++ [newname])%list).
  { unfold output_path. fold parts name stem newname.
    rewrite (path_parts_valid newname Hvalid).
    apply path_parts_str. apply Forall_app. split; [| constructor; auto].
    unfold pp_parent. apply Forall_forall. intros x Hx.
    rewrite Forall_forall in Hall. apply Hall, in_removelast_in, Hx. }
  cbv zeta. rewrite Hq. unfold pp_name at 1 2. unfold pp_parent at 1.
  rewrite removelast_last, last_last. split; [reflexivity | split].
  - intros Heq. unfold newname in Heq. rewrite Hrest in Heq.
    assert (Hc : forall s t u, s ++ t = s ++ u -> t = u).
    { induction s as [| c s IH]; simpl; [auto | intros t u H; injection H; apply IH]. }
    apply Hc in Heq. destruct Hdot as [-> | [r ->]]; discriminate.
  - unfold newname. rewrite lower_app.
    replace (lower ("_" ++ ("_" ++ detector_name) ++ "." ++ "jpg"))
      with (lower ("__" ++ detector_name) ++ ".jpg")
      by (simpl; rewrite lower_app; reflexivity).
    rewrite <- str_app_assoc. apply endswith_app.
Qed.

Lemma annotation_output_path_witness :
  has_char "/" "SIFT" = false /\
  (let q := path_parts (output_path "photos/reef.JPG" ("_" ++ "SIFT") "jpg") in
   pp_parent q = pp_parent (path_parts "photos/reef.JPG") /\
   pp_name q <> pp_name (path_parts "photos/reef.JPG") /\
   endswith (lower (pp_name q)) ".jpg" = true).
Proof.
  assert (H : has_char "/" "SIFT" = false) by reflexivity.
  split; [exact H | exact (annotation_output_path "photos/reef.JPG" "SIFT" H)].
Defined.

(** ** When [process_directory] raises *)

(** An accumulator whose [csv_row] raises: it counts detections but holds
    no responses. *)
Definition dlist_bad (l : DetectionList) : bool :=
  Nat.ltb 0 (num_detections l) && match dl_responses l with [] => true | _ => false end.

Lemma dlist_csv_row_bad (l : DetectionList) :
  if dlist_bad l then dlist_csv_row l = inl ValueError
  else exists r, dlist_csv_row l = inr r.
Proof.
  unfold dlist_bad, dlist_csv_row.
  destruct (Nat.ltb_spec 0 (num_detections l)); simpl; [| eauto].
  destruct (dl_responses l); simpl; eauto.
Qed.

Lemma write_aggregates_result (stats : string) (dls : dict) (s : list event) :
  exists s', write_aggregates stats dls s =
    (s', if existsb (fun kl => dlist_bad (snd kl)) dls then inl ValueError else inr tt).
Proof.
  revert s. induction dls as [| [k l] dls IH]; intros s; simpl; [exists s; reflexivity |].
  unfold bind at 1, lift. pose proof (dlist_csv_row_bad l) as Hl.
  destruct (dlist_bad l); simpl.
  - rewrite Hl. eauto.
  - destruct Hl as [r ->]. unfold bind, emit. apply IH.
Qed.

Lemma existsb_bad_scope (image : Type) (P : string) (Rs : detector image -> list R) (c : nat)
  (ds : list (detector image)) :
  existsb (fun kl => dlist_bad (snd kl))
    (map (fun dt => (detector_class_name image dt,
                     mk_dlist P (detector_class_name image dt) (Rs dt) c)) ds) =
  Nat.ltb 0 c && existsb (fun dt => match Rs dt with [] => true | _ => false end) ds.
Proof.
  induction ds as [| dt ds IH]; simpl; [rewrite andb_false_r; reflexivity |].
  rewrite IH, andb_orb_distrib_r. reflexivity.
Qed.

Section FailureFacts.

Variable image : Type.
Variable imread : string -> option image.
Variable detectors : list (detector image).
Variables recurse annotate : bool.
Hypothesis Hnodup : NoDup (map (detector_class_name image) detectors).

Local Abbreviation scope := (scope_dict image detectors).
Local Abbreviation step := (process_entry image imread detectors recurse annotate).
Local Abbreviation images := (entry_images image imread recurse).

(** The aggregate rows of the directory [path] raise: it has a decodable
    image (in its subtree, when recursing) and some detector found no
    keypoint in any of them. *)
Definition agg_fails (path : string) (entries : list fs_entry) : bool :=
  let imgs := flat_map (images path) entries in
  Nat.ltb 0 (List.length imgs) &&
  existsb (fun dt => match List.concat (map (detect image dt) imgs) with
                     | [] => true
                     | _ => false
                     end) detectors.

(** Some directory visited from this entry has failing aggregate rows. *)
Fixpoint entry_fails (path : string) (e : fs_entry) : bool :=
  match e with
  | FsDir name children =>
      recurse && (existsb (entry_fails (path_join path name)) children ||
                  agg_fails (path_join path name) children)
  | _ => false
  end.

(** The directory [path] or one visited below it has failing aggregate rows. *)
Definition dir_fails (path : string) (entries : list fs_entry) : bool :=
  existsb (entry_fails path) entries || agg_fails path entries.

Definition entry_res (e : fs_entry) : Prop :=
  forall path stats Rs c s, exists s',
    step path stats (scope path Rs c) e s =
    (s', if entry_fails path e then inl ValueError
         else inr (scope path (fun dt => Rs dt ++ List.concat (map (detect image dt) (images path e)))%list
                        (c + List.length (images path e)))).

Lemma entry_loop_res (es : list fs_entry) :
  Forall entry_res es ->
  forall path stats Rs c s, exists s',
    entry_loop step path stats (scope path Rs c) es s =
    (s', if existsb (entry_fails path) es then inl ValueError
         else inr (scope path
                     (fun dt => Rs dt ++ List.concat (map (detect image dt) (flat_map (images path) es)))%list
                     (c + List.length (flat_map (images path) es)))).
Proof.
  induction es as [| e es IH]; intros Hok path stats Rs c s.
  - exists s. simpl; try unfold ret. f_equal. f_equal.
    apply scope_ext; intros; simpl; [rewrite app_nil_r |]; reflexivity || lia.
  - apply Forall_cons_iff in Hok as [He Hes].
    destruct (He path stats Rs c s) as [s1 E1].
    simpl. unfold bind at 1. rewrite E1.
    destruct (entry_fails path e); simpl; [eauto |].
    destruct (IH Hes path stats
                (fun dt => Rs dt ++ List.concat (map (detect image dt) (images path e)))%list
                (c + List.length (images path e))%nat s1) as [s2 E2].
    exists s2. rewrite E2. destruct (existsb (entry_fails path) es); [reflexivity |].
    f_equal. f_equal. apply scope_ext.
    + intros dt. rewrite map_app, List.concat_app, app_assoc. reflexivity.
    + rewrite length_app. lia.
Qed.

Lemma run_directory_res (path : string) (es : list fs_entry) (s : list event) :
  Forall entry_res es ->
  exists s', run_directory image detectors step path es s =
    (s', if dir_fails path es then inl ValueError
         else inr (scope path (fun dt => List.concat (map (detect image dt) (flat_map (images path) es)))
                        (List.length (flat_map (images path) es)))).
Proof.
  intros Hok. unfold run_directory, dir_fails.
  unfold bind at 1, emit at 1. unfold bind at 1, emit at 1. unfold bind at 1.
  rewrite (init_lists_scope image detectors Hnodup path).
  match goal with |- context [entry_loop _ _ _ _ _ ?s0] =>
    destruct (entry_loop_res es Hok path (path_join path "stats.csv") (fun _ => []) 0%nat s0)
      as [s3 E3] end.
  rewrite E3. destruct (existsb (entry_fails path) es); simpl; [eauto |].
  unfold bind at 1.
  match goal with |- context [write_aggregates ?st ?d ?s0] =>
    destruct (write_aggregates_result st d s0) as [s4 E4] end.
  rewrite E4. exists s4. unfold scope_dict at 1. rewrite existsb_bad_scope.
  unfold agg_fails. simpl.
  destruct (Nat.ltb 0 (List.length (flat_map (images path) es)) &&
            existsb (fun dt => match List.concat (map (detect image dt) (flat_map (images path) es)) with
                               | [] => true | _ => false end) detectors); reflexivity.
Qed.

Lemma all_entries_res (e : fs_entry) : entry_res e.
Proof.
  induction e as [name | name es IH | name] using fs_entry_ind';
    intros path stats Rs c s.
  - simpl. destruct (endswith (lower name) ".jpg").
    + unfold bind at 1.
      destruct (process_image_result image imread detectors annotate (path_join path name) s)
        as [s1 E]. rewrite E.
      destruct (imread (path_join path name)) as [img |].
      * destruct (write_and_add_in_order image stats (path_join path name)
                    (path_join path "**") Rs c img [] detectors s1 Hnodup) as [s2 E2].
        simpl in E2. exists s2. unfold scope_dict. rewrite E2. simpl.
        f_equal. f_equal. apply map_ext. intros dt. rewrite app_nil_r. reflexivity.
      * exists s1. simpl; try unfold ret. f_equal. f_equal.
        apply scope_ext; intros; simpl; [rewrite app_nil_r |]; reflexivity || lia.
    + exists s. simpl; try unfold ret. f_equal. f_equal.
      apply scope_ext; intros; simpl; [rewrite app_nil_r |]; reflexivity || lia.
  - pose proof (fun s => run_directory_res (path_join path name) es s IH) as RD.
    pose proof (fun Rsub csub s1 =>
                  add_sub_lists_in_order image (path_join path "**")
                    (path_join (path_join path name) "**") Rs Rsub c csub
                    [] detectors s1 Hnodup) as AS.
    simpl. unfold dir_fails in RD. destruct recurse; simpl.
    + unfold bind at 1. destruct (RD s) as [s1 E1]. rewrite E1.
      destruct (existsb (entry_fails (path_join path name)) es ||
                agg_fails (path_join path name) es); [eauto |].
      exists s1. simpl in AS. unfold scope_dict. rewrite AS. reflexivity.
    + exists s. try unfold ret. f_equal. f_equal.
      apply scope_ext; intros; simpl; [rewrite app_nil_r |]; reflexivity || lia.
  - exists s. simpl; try unfold ret. f_equal. f_equal.
    apply scope_ext; intros; simpl; [rewrite app_nil_r |]; reflexivity || lia.
Qed.

(** Outcome of [process_directory] (extra X12): with distinct detector
    class names it never raises [KeyError] or [AssertionError]; it raises
    [ValueError] exactly when the directory, or a subdirectory it visits,
    has decodable images (in its subtree) and a detector that found no
    keypoint in any of them; otherwise it returns one accumulator per
    detector holding the responses and the number of those images. *)
Theorem process_directory_outcome (path : string) (entries : list fs_entry) (s : list event) :
  exists s', process_directory image imread detectors recurse annotate path entries s =
    (s', if dir_fails path entries then inl ValueError
         else inr (scope path (fun dt => List.concat (map (detect image dt) (flat_map (images path) entries)))
                        (List.length (flat_map (images path) entries)))).
Proof.
  apply run_directory_res. apply Forall_forall. intros e _. apply all_entries_res.
Qed.

End FailureFacts.

(** A detector that never finds a keypoint makes the run raise. *)
Definition wit_blind_detectors : list (detector unit) :=
  [mk_detector unit "SIFT" (fun _ => [1%R]); mk_detector unit "MSER" (fun _ => [])].

Lemma process_directory_outcome_witness :
  NoDup (map (detector_class_name unit) wit_blind_detectors) /\
  dir_fails unit wit_imread wit_blind_detectors true "d" wit_entries = true /\
  exists s', process_directory unit wit_imread wit_blind_detectors true false "d" wit_entries [] =
    (s', if dir_fails unit wit_imread wit_blind_detectors true "d" wit_entries then inl ValueError
         else inr (scope_dict unit wit_blind_detectors "d"
                     (fun dt => List.concat (map (detect unit dt)
                        (flat_map (entry_images unit wit_imread true "d") wit_entries)))
                     (List.length (flat_map (entry_images unit wit_imread true "d") wit_entries)))).
Proof.
  assert (Hn : NoDup (map (detector_class_name unit) wit_blind_detectors)) by
    (simpl; repeat constructor; simpl; intuition discriminate).
  split; [exact Hn | split; [reflexivity |]].
  exact (process_directory_outcome unit wit_imread wit_blind_detectors true false Hn
           "d" wit_entries []).
Defined.

(** ** Selected events of a trace *)

(** [sel]-events appended by a successful run of [m] are [l]. *)
Definition emits (sel : event -> bool) {A} (m : M A) (l : list event) : Prop :=
  forall s s' a, m s = (s', inr a) -> exists t, s' = (s ++ t)%list /\ filter sel t = l.

Section Emits.

Variable sel : event -> bool.

(** Rows written to a stats file are never selected. *)
Hypothesis Hrow : forall f r, sel (EWrite f (LRow r)) = false.

Lemma emits_ret {A} (a : A) : emits sel (ret a) [].
Proof. intros s s' b H. injection H as <- _. exists []. rewrite app_nil_r. auto. Qed.

Lemma emits_emit (e : event) : emits sel (emit e) (filter sel [e]).
Proof. intros s s' b H. injection H as <- _. exists [e]. auto. Qed.

Lemma emits_lift {A} (x : exc + A) : emits sel (lift x) [].
Proof. intros s s' b H. injection H as <- _. exists []. rewrite app_nil_r. auto. Qed.

Lemma emits_bind {A B} (m : M A) (f : A -> M B) (l1 l2 : list event) :
  emits sel m l1 -> (forall a, emits sel (f a) l2) -> emits sel (bind m f) (l1 ++ l2).
Proof.
  intros Hm Hf s s' b H. unfold bind in H.
  destruct (m s) as [s1 [e | a]] eqn:E; [discriminate |].
  destruct (Hm s s1 a E) as [t1 [-> H1]].
  destruct (Hf a _ _ _ H) as [t2 [-> H2]].
  exists (t1 ++ t2)%list. split; [symmetry; apply app_assoc |].
  rewrite filter_app, H1, H2. reflexivity.
Qed.

Lemma emits_eq {A} (m : M A) (l l' : list event) : emits sel m l -> l = l' -> emits sel m l'.
Proof. intros H <-. exact H. Qed.

Lemma emits_row (f : string) (r : row) : emits sel (emit (EWrite f (LRow r))) [].
Proof. apply emits_eq with (l := filter sel [EWrite f (LRow r)]); [apply emits_emit |]. simpl. rewrite Hrow. reflexivity. Qed.

Lemma emits_write_and_add (stats : string) (ds : list Detection) :
  forall dls, emits sel (write_and_add stats dls ds) [].
Proof.
  induction ds as [| d ds IH]; intros dls; simpl; [apply emits_ret |].
  apply (emits_bind _ _ [] []); [apply emits_lift | intros r].
  apply (emits_bind _ _ [] []); [apply emits_row | intros _].
  apply (emits_bind _ _ [] []); [apply emits_lift | intros dls'; apply IH].
Qed.

Lemma emits_add_sub_lists (sub : dict) : forall dls, emits sel (add_sub_lists dls sub) [].
Proof.
  induction sub as [| [k l] sub IH]; intros dls; simpl; [apply emits_ret |].
  apply (emits_bind _ _ [] []); [apply emits_lift | intros; apply IH].
Qed.

Lemma emits_write_aggregates (stats : string) (dls : dict) :
  emits sel (write_aggregates stats dls) [].
Proof.
  induction dls as [| [k l] dls IH]; simpl; [apply emits_ret |].
  apply (emits_bind _ _ [] []); [apply emits_lift | intros r].
  apply (emits_bind _ _ [] []); [apply emits_row | intros _; apply IH].
Qed.

Lemma emits_entry_loop (step : string -> string -> dict -> fs_entry -> M dict)
  (F : string -> fs_entry -> list event) (path stats : string) (es : list fs_entry) :
  Forall (fun e => forall st d, emits sel (step path st d e) (F path e)) es ->
  forall dls, emits sel (entry_loop step path stats dls es) (flat_map (F path) es).
Proof.
  induction es as [| e es IH]; intros Hes dls; simpl; [apply emits_ret |].
  apply Forall_cons_iff in Hes as [He Hes].
  apply emits_bind; [apply He | intros; apply IH, Hes].
Qed.

Lemma emits_run_directory (image : Type) (detectors : list (detector image))
  (step : string -> string -> dict -> fs_entry -> M dict)
  (F : string -> fs_entry -> list event) (path : string) (es : list fs_entry) :
  Forall (fun e => forall st d, emits sel (step path st d e) (F path e)) es ->
  emits sel (run_directory image detectors step path es)
        (filter sel [EOpen (path_join path "stats.csv"); EWrite (path_join path "stats.csv") LHeader]
         ++ flat_map (F path) es).
Proof.
  intros Hes. unfold run_directory.
  apply emits_eq with
    (l := (filter sel [EOpen (path_join path "stats.csv")] ++
           (filter sel [EWrite (path_join path "stats.csv") LHeader] ++
            (flat_map (F path) es ++ ([] ++ []))))%list);
    [| simpl; rewrite !app_nil_r; destruct (sel _), (sel _); reflexivity].
  apply emits_bind; [apply emits_emit | intros _].
  apply emits_bind; [apply emits_emit | intros _].
  apply emits_bind; [apply emits_entry_loop, Hes | intros dls].
  apply emits_bind; [apply emits_write_aggregates | intros _; apply emits_ret].
Qed.

End Emits.

Lemma flat_map_flat_map' {A B C} (f : B -> list C) (g : A -> list B) (l : list A) :
  flat_map f (flat_map g l) = flat_map (fun x => flat_map f (g x)) l.
Proof.
  induction l as [| x l IH]; simpl; [reflexivity |].
  rewrite flat_map_app, IH. reflexivity.
Qed.

(** *** Detector calls *)

(** The detector calls and annotation writes of a trace. *)
Definition detector_event (e : event) : bool :=
  match e with EDetect _ _ | EAnnotate _ _ => true | _ => false end.

Definition detector_events (t : list event) : list event := filter detector_event t.

(** The calls one decodable image triggers: each detector in order, each
    followed by the annotation write when annotating. *)
Definition image_calls (image : Type) (ds : list (detector image)) (annotate : bool)
    (p : string) : list event :=
  flat_map (fun dt => EDetect (detector_class_name image dt) p ::
                      (if annotate then [EAnnotate (detector_class_name image dt) p] else [])) ds.

Lemma detector_row (f : string) (r : row) : detector_event (EWrite f (LRow r)) = false.
Proof. reflexivity. Qed.

Lemma emits_run_detectors (image : Type) (ds : list (detector image)) (img : image)
  (p : string) (annotate : bool) :
  forall acc, emits detector_event (run_detectors image ds img p annotate acc)
                    (image_calls image ds annotate p).
Proof.
  induction ds as [| dt ds IH]; intros acc; simpl; [apply emits_ret |].
  apply (emits_bind _ _ _ [EDetect (detector_class_name image dt) p]); [apply emits_emit | intros _].
  destruct annotate.
  - apply (emits_bind _ _ _ [EAnnotate (detector_class_name image dt) p]);
      [apply emits_emit | intros _; apply IH].
  - apply (emits_bind _ _ _ [] _); [apply emits_ret | intros _; apply IH].
Qed.

(** The decodable [.jpg] files an entry contributes, as the paths
    [process_image] opens them with, in traversal order. *)
Fixpoint entry_paths (image : Type) (imread : string -> option image) (recurse : bool)
    (path : string) (e : fs_entry) : list string :=
  match e with
  | FsFile name =>
      if endswith (lower name) ".jpg" then
        match imread (path_join path name) with Some _ => [path_join path name] | None => [] end
      else []
  | FsDir name children =>
      if recurse then flat_map (entry_paths image imread recurse (path_join path name)) children
      else []
  | FsOther _ => []
  end.

Lemma emits_process_entry (image : Type) (imread : string -> option image)
  (detectors : list (detector image)) (recurse annotate : bool) (e : fs_entry) :
  forall p st d,
    emits detector_event (process_entry image imread detectors recurse annotate p st d e)
          (flat_map (image_calls image detectors annotate) (entry_paths image imread recurse p e)).
Proof.
  induction e as [name | name es IH | name] using fs_entry_ind'; intros p st d; simpl.
  - destruct (endswith (lower name) ".jpg"); [| apply emits_ret].
    apply emits_eq with
      (l := ((match imread (path_join p name) with
              | Some _ => image_calls image detectors annotate (path_join p name)
              | None => [] end) ++ [])%list);
      [| destruct (imread (path_join p name)); simpl; rewrite ?app_nil_r; reflexivity].
    apply emits_bind; [| intros; apply emits_write_and_add, detector_row].
    unfold process_image. apply (emits_bind _ _ _ [] _); [apply emits_emit | intros _].
    destruct (imread (path_join p name)); [apply emits_run_detectors |].
    apply (emits_bind _ _ _ [] []); [apply emits_emit | intros _; apply emits_ret].
  - destruct recurse; [| apply emits_ret].
    rewrite <- (app_nil_r (flat_map _ _)).
    apply emits_bind; [| intros; apply emits_add_sub_lists].
    rewrite flat_map_flat_map'.
    apply emits_run_directory with
      (F := fun q e => flat_map (image_calls image detectors annotate)
                         (entry_paths image imread true q e)); [exact detector_row |].
    apply Forall_forall. intros e He st' d'.
    rewrite Forall_forall in IH. apply IH, He.
  - apply emits_ret.
Qed.

(** Detector calls of a run (extra X13): a successful [process_directory]
    hands every decodable [.jpg] it reaches (its own files and, when
    recursing, those of its subdirectories, in traversal order) to each
    configured detector exactly once, in configuration order, each call
    followed by the annotation write when annotating; files that are not
    [.jpg] or do not decode never reach a detector, and nothing is
    annotated when not annotating. *)
Theorem process_directory_detector_calls (image : Type) (imread : string -> option image)
  (detectors : list (detector image)) (recurse annotate : bool)
  (path : string) (entries : list fs_entry) (s s' : list event) (out : dict)
  (Hrun : process_directory image imread detectors recurse annotate path entries s = (s', inr out)) :
  exists t, s' = (s ++ t)%list /\
    detector_events t =
    flat_map (image_calls image detectors annotate)
             (flat_map (entry_paths image imread recurse path) entries).
Proof.
  rewrite flat_map_flat_map'.
  refine (emits_run_directory detector_event detector_row image detectors _
            (fun q e => flat_map (image_calls image detectors annotate)
                          (entry_paths image imread recurse q e))
            path entries _ s s' out Hrun).
  apply Forall_forall. intros e _ st d. apply emits_process_entry.
Qed.

Definition wit_annot_run : list event * (exc + dict) :=
  process_directory unit wit_imread wit_detectors true true "d" wit_entries [].

Definition wit_annot_out : dict :=
  match snd wit_annot_run with inr o => o | inl _ => [] end.

Lemma process_directory_detector_calls_witness :
  wit_annot_run = (fst wit_annot_run, inr wit_annot_out) /\
  exists t, fst wit_annot_run = ([] ++ t)%list /\
    detector_events t =
    flat_map (image_calls unit wit_detectors true)
             (flat_map (entry_paths unit wit_imread true "d") wit_entries).
Proof.
  assert (Hr : wit_annot_run = (fst wit_annot_run, inr wit_annot_out)) by reflexivity.
  split; [exact Hr |].
  exact (process_directory_detector_calls unit wit_imread wit_detectors true true
           "d" wit_entries [] (fst wit_annot_run) wit_annot_out Hr).
Defined.

(** *** Stats files *)

(** Opening a stats file and writing its header. *)
Definition file_event (e : event) : bool :=
  match e with EOpen _ | EWrite _ LHeader => true | _ => false end.

Lemma file_row (f : string) (r : row) : file_event (EWrite f (LRow r)) = false.
Proof. reflexivity. Qed.

(** The header events of the directory [d]. *)
Definition header_events (d : string) : list event :=
  [EOpen (path_join d "stats.csv"); EWrite (path_join d "stats.csv") LHeader].

(** The subdirectories an entry makes [process_directory] visit, in the
    order of the recursive calls (a directory before its own subdirectories). *)
Fixpoint entry_dirs (recurse : bool) (path : string) (e : fs_entry) : list string :=
  match e with
  | FsDir name children =>
      if recurse then
        path_join path name :: flat_map (entry_dirs recurse (path_join path name)) children
      else []
  | _ => []
  end.

Lemma files_run_detectors (image : Type) (ds : list (detector image)) (img : image)
  (p : string) (annotate : bool) :
  forall acc, emits file_event (run_detectors image ds img p annotate acc) [].
Proof.
  induction ds as [| dt ds IH]; intros acc; simpl; [apply emits_ret |].
  apply (emits_bind _ _ _ [] []); [apply emits_emit | intros _].
  apply (emits_bind _ _ _ [] []); [| intros _; apply IH].
  destruct annotate; [apply emits_emit | apply emits_ret].
Qed.

Lemma files_process_entry (image : Type) (imread : string -> option image)
  (detectors : list (detector image)) (recurse annotate : bool) (e : fs_entry) :
  forall p st d,
    emits file_event (process_entry image imread detectors recurse annotate p st d e)
          (flat_map header_events (entry_dirs recurse p e)).
Proof.
  induction e as [name | name es IH | name] using fs_entry_ind'; intros p st d; simpl.
  - destruct (endswith (lower name) ".jpg"); [| apply emits_ret].
    apply (emits_bind _ _ _ [] []); [| intros; apply emits_write_and_add, file_row].
    unfold process_image. apply (emits_bind _ _ _ [] []); [apply emits_emit | intros _].
    destruct (imread (path_join p name)); [apply files_run_detectors |].
    apply (emits_bind _ _ _ [] []); [apply emits_emit | intros _; apply emits_ret].
  - destruct recurse; [| apply emits_ret].
    cbn [flat_map]. rewrite flat_map_flat_map'.
    rewrite <- (app_nil_r (header_events _ ++ _)).
    apply emits_bind; [| intros; apply emits_add_sub_lists].
    apply emits_run_directory with
      (F := fun q e => flat_map header_events (entry_dirs true q e)); [exact file_row |].
    apply Forall_forall. intros e He st' d'.
    rewrite Forall_forall in IH. apply IH, He.
  - apply emits_ret.
Qed.

(** Stats files of a run (extra X14): a successful [process_directory]
    opens the [stats.csv] of this directory and, when recursing, of every
    subdirectory below it, each once, a directory before its
    subdirectories, in listing order, and writes each header as the file is
    opened; it opens no other file, and without recursion only this
    directory's. *)
Theorem process_directory_stats_files (image : Type) (imread : string -> option image)
  (detectors : list (detector image)) (recurse annotate : bool)
  (path : string) (entries : list fs_entry) (s s' : list event) (out : dict)
  (Hrun : process_directory image imread detectors recurse annotate path entries s = (s', inr out)) :
  exists t, s' = (s ++ t)%list /\
    filter file_event t = flat_map header_events (path :: flat_map (entry_dirs recurse path) entries).
Proof.
  cbn [flat_map]. rewrite flat_map_flat_map'.
  refine (emits_run_directory file_event file_row image detectors _
            (fun q e => flat_map header_events (entry_dirs recurse q e))
            path entries _ s s' out Hrun).
  apply Forall_forall. intros e _ st d. apply files_process_entry.
Qed.

Lemma process_directory_stats_files_witness :
  wit_run = (fst wit_run, inr wit_out) /\
  exists t, fst wit_run = ([] ++ t)%list /\
    filter file_event t = flat_map header_events ("d" :: flat_map (entry_dirs true "d") wit_entries).
Proof.
  assert (Hr : wit_run = (fst wit_run, inr wit_out)) by reflexivity.
  split; [exact Hr |].
  exact (process_directory_stats_files unit wit_imread wit_detectors true false
           "d" wit_entries [] (fst wit_run) wit_out Hr).
Defined.
